(** * LUNA Codebase Encyclopedia: the summary generator (summarizer_tool.py)

    A shallow embedding of [SummaryGenerator] and [main], with the file
    system, the remote generation API, the clock and the two output streams
    as an explicit world that every operation threads through.

    Conventions.
    - A Python [str] is a list of code points ([N]); [u "..."] turns an ASCII
      literal into one.
    - [pathlib.Path] is the POSIX flavour ([PurePosixPath]), as Python up to
      3.13 implements it: a root (empty, one slash or two) and the list of
      the name components.
    - An exception is a value of [exn]: an instance of [Exception] with its
      class and the text [str(e)] gives, or [SystemExit]. *)

From Stdlib Require Import NArith Ascii String.
From stdpp Require Import base decidable option list countable gmap.

Local Open Scope N_scope.

(** ** Strings *)

Abbreviation char := N (only parsing).
Abbreviation str := (list N) (only parsing).

Definition u (s : string) : str :=
  N_of_ascii <$> list_ascii_of_string s.

Definition str_eqb (a b : str) : bool := bool_decide (a = b).

(** [s.startswith(p)] *)
Fixpoint startswith (p s : str) : bool :=
  match p, s with
  | [], _ => true
  | _ :: _, [] => false
  | a :: p', b :: s' => (a =? b) && startswith p' s'
  end.

(** [s.rfind(c)] for a single character [c]: the index of the last
    occurrence, [None] for Python's [-1]. *)
Fixpoint rfind (c : char) (s : str) : option nat :=
  match s with
  | [] => None
  | x :: r =>
      match rfind c r with
      | Some i => Some (S i)
      | None => if x =? c then Some O else None
      end
  end.

(** [s.split(c)] for a single character separator. *)
Fixpoint split (c : char) (s : str) : list str :=
  match s with
  | [] => [[]]
  | x :: r =>
      if x =? c then [] :: split c r
      else match split c r with
           | h :: t => (x :: h) :: t
           | [] => [[x]]
           end
  end.

(** [c.join(l)] *)
Fixpoint join (c : str) (l : list str) : str :=
  match l with
  | [] => []
  | [x] => x
  | x :: r => x ++ c ++ join c r
  end.

(** [s.lstrip(c)] for a single character. *)
Fixpoint lstrip_char (c : char) (s : str) : str :=
  match s with
  | x :: r => if x =? c then lstrip_char c r else s
  | [] => []
  end.

(** [c in s] *)
Definition contains_char (c : char) (s : str) : bool :=
  existsb (N.eqb c) s.

(** [str(n)] for a non-negative [int]. *)
Definition digit_char (d : N) : char := 48 + d.

Fixpoint str_of_pos_fuel (fuel : nat) (n : N) (acc : str) : str :=
  match fuel with
  | O => acc
  | S fuel' =>
      let acc' := digit_char (n mod 10) :: acc in
      if n / 10 =? 0 then acc' else str_of_pos_fuel fuel' (n / 10) acc'
  end.

Definition str_of_N (n : N) : str :=
  str_of_pos_fuel (S (N.to_nat (N.log2 n))) n [].

Definition str_of_nat (n : nat) : str := str_of_N (N.of_nat n).

(** ** Exceptions *)

(** The subclasses of [Exception] that the modelled operations raise. *)
Inductive exn_class :=
| ValueError
| IndexError
| FileNotFoundError
| IsADirectoryError
| NotADirectoryError
| FileExistsError
| APIError.

(** What a [raise] carries: an instance of [Exception] with its class and
    the text of [str(e)], or the [SystemExit] of [sys.exit(code)], which is
    a [BaseException] and no [Exception]. *)
Inductive exn :=
| Exn (cls : exn_class) (msg : str)
| SystemExit (code : N).

Definition exn_str (e : exn) : str :=
  match e with
  | Exn _ msg => msg
  | SystemExit code => str_of_N code
  end.

Inductive res (A : Type) :=
| Ok (a : A)
| Raise (e : exn).
Arguments Ok {A} a.
Arguments Raise {A} e.

(** [repr(s)] of a string with no quote, backslash or non-printable
    character, which is all the messages below are read for. *)
Definition py_repr (s : str) : str := u "'" ++ s ++ u "'".

(** ** pathlib, POSIX flavour *)

Definition sep : char := 47.
Definition dot : char := 46.

Record Path := mkPath { root : str; parts : list str }.

#[global] Instance Path_eq_dec : EqDecision Path.
Proof. solve_decision. Defined.

#[global] Instance Path_countable : Countable Path.
Proof.
  refine (inj_countable' (fun p => (root p, parts p))
                         (fun rp => mkPath (fst rp) (snd rp)) _).
  by intros [].
Defined.

(** [_PosixFlavour.splitroot] *)
Definition splitroot (part : str) : str * str :=
  match part with
  | c :: _ =>
      if c =? sep then
        let stripped_part := lstrip_char sep part in
        if (length part - length stripped_part =? 2)%nat
        then ([sep; sep], stripped_part)
        else ([sep], stripped_part)
      else ([], part)
  | [] => ([], part)
  end.

Definition keep_part (x : str) : bool :=
  negb (str_eqb x []) && negb (str_eqb x [dot]).

(** [Path(s)] for one string argument ([_Flavour.parse_parts]). *)
Definition parse_path (s : str) : Path :=
  let '(r, rel) := splitroot s in
  mkPath r (List.filter keep_part (split sep rel)).

(** [str(p)] *)
Definition path_str (p : Path) : str :=
  match root p ++ join [sep] (parts p) with
  | [] => [dot]
  | s => s
  end.

(** [p / q] for a path [q] *)
Definition joinpath (p q : Path) : Path :=
  match root q with
  | [] => mkPath (root p) (parts p ++ parts q)
  | _ => q
  end.

(** [p.name] *)
Definition name (p : Path) : str := List.last (parts p) [].

(** [p.parent] *)
Definition parent (p : Path) : Path :=
  mkPath (root p) (removelast (parts p)).

(** The test [0 < i < len(name) - 1] of [suffix] and [stem]. *)
Definition suffix_index (nm : str) : option nat :=
  match rfind dot nm with
  | Some i => if ((0 <? i)%nat && (S i <? length nm)%nat)%bool then Some i else None
  | None => None
  end.

(** [p.suffix] *)
Definition suffix (p : Path) : str :=
  match suffix_index (name p) with
  | Some i => drop i (name p)
  | None => []
  end.

(** [p.stem] *)
Definition stem (p : Path) : str :=
  match suffix_index (name p) with
  | Some i => take i (name p)
  | None => name p
  end.

(** [p.with_suffix(sfx)] *)
Definition with_suffix (p : Path) (sfx : str) : res Path :=
  if contains_char sep sfx then
    Raise (Exn ValueError (u "Invalid suffix " ++ py_repr sfx))
  else if (negb (str_eqb sfx []) && negb (startswith [dot] sfx)) || str_eqb sfx [dot] then
    Raise (Exn ValueError (u "Invalid suffix " ++ py_repr sfx))
  else
    let nm := name p in
    if str_eqb nm [] then
      Raise (Exn ValueError
               (u "PosixPath(" ++ py_repr (path_str p) ++ u ") has an empty name"))
    else
      let old_suffix := suffix p in
      let nm' :=
        if str_eqb old_suffix [] then nm ++ sfx
        else take (length nm - length old_suffix) nm ++ sfx in
      Ok (mkPath (root p) (removelast (parts p) ++ [nm'])).

(** [l] with the prefix [pre] removed, when it has it. *)
Fixpoint strip_prefix (pre l : list str) : option (list str) :=
  match pre, l with
  | [], _ => Some l
  | _ :: _, [] => None
  | a :: pre', b :: l' => if str_eqb a b then strip_prefix pre' l' else None
  end.

(** [p.relative_to(other)] *)
Definition relative_to (p other : Path) : res Path :=
  let not_in :=
    Raise (Exn ValueError
             (py_repr (path_str p) ++ u " is not in the subpath of "
                ++ py_repr (path_str other))) in
  if str_eqb (root p) (root other) then
    match strip_prefix (parts other) (parts p) with
    | Some rest => Ok (mkPath [] rest)
    | None => not_in
    end
  else not_in.


(** ** The world

    A regular file holds its decoded text; a directory holds nothing.  The
    file system is a finite map from normalised paths: the operating system
    is taken to name a file by the pathlib normal form of the string it is
    given.  A path with no name component (the root, or the working
    directory [.]) is a directory that always exists.  Symbolic links, [..]
    and permissions are left out, and the only ways for a file operation to
    fail are a missing file, a missing directory, and a file or a directory
    where the other is needed.  Printing does not fail. *)

Inductive node :=
| File (content : str)
| Dir.

(** What the run does to its surroundings, in the order it does it. *)
Inductive event :=
| EvSummaryStep (file_path : str)
| EvOpenRead (file : str)
| EvMkdir (p : Path)
| EvOpenWrite (p : Path)
| EvApi (key model : str) (max_tokens temperature : N) (prompt : str).

(** What a request to the remote API comes back with: the text segments of
    the message, or a failure, which the client raises as an exception. *)
Inductive api_reply :=
| Reply (content : list str)
| Failure (msg : str).

Record World := mkWorld {
  fs : gmap Path node;
  environ_api_key : option str;
  (** the reply of the remote API to its [n]-th request *)
  api : nat -> str -> str -> api_reply;
  (** [datetime.now().isoformat()] at the [n]-th reading of the clock *)
  clock : nat -> str;
  ticks : nat;
  stdout : list str;
  stderr : list str;
  trace : list event;
}.

Definition set_fs (m : gmap Path node) (w : World) : World :=
  mkWorld m (environ_api_key w) (api w) (clock w) (ticks w)
          (stdout w) (stderr w) (trace w).

Definition tick (w : World) : World :=
  mkWorld (fs w) (environ_api_key w) (api w) (clock w) (S (ticks w))
          (stdout w) (stderr w) (trace w).

Definition add_stdout (s : str) (w : World) : World :=
  mkWorld (fs w) (environ_api_key w) (api w) (clock w) (ticks w)
          (stdout w ++ [s]) (stderr w) (trace w).

Definition add_stderr (s : str) (w : World) : World :=
  mkWorld (fs w) (environ_api_key w) (api w) (clock w) (ticks w)
          (stdout w) (stderr w ++ [s]) (trace w).

Definition add_event (e : event) (w : World) : World :=
  mkWorld (fs w) (environ_api_key w) (api w) (clock w) (ticks w)
          (stdout w) (stderr w) (trace w ++ [e]).

(** ** The monad of the embedding: state and exceptions

    A raised exception keeps the state reached so far, as in Python. *)

Definition M (A : Type) : Type := World -> res A * World.

Definition ret {A} (a : A) : M A := fun w => (Ok a, w).

Definition raise {A} (e : exn) : M A := fun w => (Raise e, w).

Definition bind {A B} (c : M A) (k : A -> M B) : M B :=
  fun w =>
    match c w with
    | (Ok a, w') => k a w'
    | (Raise e, w') => (Raise e, w')
    end.

Notation "x <- c ;; k" := (bind c (fun x => k))
  (at level 100, c at next level, right associativity).
Notation "c ;;; k" := (bind c (fun _ => k))
  (at level 100, right associativity).

(** A pure computation that may raise. *)
Definition lift {A} (r : res A) : M A := fun w => (r, w).

(** [try: c  except Exception as e: h(e)]; [SystemExit] passes through. *)
Definition try_except {A} (c : M A) (h : exn -> M A) : M A :=
  fun w =>
    match c w with
    | (Ok a, w') => (Ok a, w')
    | (Raise (Exn cls msg), w') => h (Exn cls msg) w'
    | (Raise (SystemExit code), w') => (Raise (SystemExit code), w')
    end.

Definition log_event (e : event) : M unit := fun w => (Ok tt, add_event e w).

(** [print(s)] and [print(s, file=sys.stderr)]: one entry per call. *)
Definition print (s : str) : M unit := fun w => (Ok tt, add_stdout s w).
Definition print_err (s : str) : M unit := fun w => (Ok tt, add_stderr s w).

(** ** The operating system *)

Definition os_error (cls : exn_class) (errno : str) (filename : str) : exn :=
  Exn cls (errno ++ u ": " ++ py_repr filename).

Definition ENOENT := os_error FileNotFoundError (u "[Errno 2] No such file or directory").
Definition EEXIST := os_error FileExistsError (u "[Errno 17] File exists").
Definition ENOTDIR := os_error NotADirectoryError (u "[Errno 20] Not a directory").
Definition EISDIR := os_error IsADirectoryError (u "[Errno 21] Is a directory").

Definition lookup_node (m : gmap Path node) (p : Path) : option node :=
  match parts p with
  | [] => Some Dir
  | _ => m !! p
  end.

(** Text mode with universal newlines: CR LF and CR are read as LF. *)
Fixpoint universal_newlines (s : str) : str :=
  match s with
  | [] => []
  | c :: r =>
      if c =? 13 then
        10 :: match r with
              | d :: r' => if d =? 10 then universal_newlines r' else universal_newlines r
              | [] => []
              end
      else c :: universal_newlines r
  end.

(** [open(file, 'r', ...)] and the reading of the whole text. *)
Definition read_text (file : str) : M str :=
  log_event (EvOpenRead file) ;;;
  fun w =>
    match lookup_node (fs w) (parse_path file) with
    | Some (File content) => (Ok (universal_newlines content), w)
    | Some Dir => (Raise (EISDIR file), w)
    | None => (Raise (ENOENT file), w)
    end.

(** [open(p, 'w', ...)] followed by the write of [content] and the close. *)
Definition write_text (p : Path) (content : str) : M unit :=
  log_event (EvOpenWrite p) ;;;
  fun w =>
    match lookup_node (fs w) p with
    | Some Dir => (Raise (EISDIR (path_str p)), w)
    | _ =>
        match lookup_node (fs w) (parent p) with
        | Some Dir => (Ok tt, set_fs (<[p := File content]> (fs w)) w)
        | Some (File _) => (Raise (ENOTDIR (path_str p)), w)
        | None => (Raise (ENOENT (path_str p)), w)
        end
    end.

(** [os.mkdir(p)], on the map of the file system: the outcome and the map
    it leaves. *)
Definition os_mkdir (p : Path) (m : gmap Path node)
  : res unit * gmap Path node :=
  match lookup_node m p with
  | Some _ => (Raise (EEXIST (path_str p)), m)
  | None =>
      match lookup_node m (parent p) with
      | Some Dir => (Ok tt, <[p := Dir]> m)
      | Some (File _) => (Raise (ENOTDIR (path_str p)), m)
      | None => (Raise (ENOENT (path_str p)), m)
      end
  end.

Definition is_dir (m : gmap Path node) (p : Path) : bool :=
  match lookup_node m p with
  | Some Dir => true
  | _ => false
  end.

Definition is_FileNotFoundError (e : exn) : bool :=
  match e with
  | Exn FileNotFoundError _ => true
  | _ => false
  end.

(** [Path.mkdir(parents=False, exist_ok=True)] *)
Definition mkdir_exist_ok (p : Path) (m : gmap Path node)
  : res unit * gmap Path node :=
  match os_mkdir p m with
  | (Ok _, m') => (Ok tt, m')
  | (Raise e, m') =>
      if is_FileNotFoundError e then (Raise e, m')
      else if is_dir m' p then (Ok tt, m') else (Raise e, m')
  end.

(** [Path.mkdir(parents=True, exist_ok=True)] on the path with root [r] and
    the name components [rev rparts]: the recursion of pathlib goes from a
    path to its parent, that is to the tail of [rparts]. *)
Fixpoint mkdir_parents_rev (r : str) (rparts : list str) (m : gmap Path node)
  : res unit * gmap Path node :=
  let p := mkPath r (rev rparts) in
  match os_mkdir p m with
  | (Ok _, m') => (Ok tt, m')
  | (Raise e, m') =>
      if is_FileNotFoundError e then
        match rparts with
        | [] => (Raise e, m')
        | _ :: rparent =>
            match mkdir_parents_rev r rparent m' with
            | (Ok _, m1) => mkdir_exist_ok p m1
            | (Raise e1, m1) => (Raise e1, m1)
            end
        end
      else if is_dir m' p then (Ok tt, m') else (Raise e, m')
  end.

Definition mkdir_parents (p : Path) : M unit :=
  log_event (EvMkdir p) ;;;
  fun w =>
    let '(r, m') := mkdir_parents_rev (root p) (rev (parts p)) (fs w) in
    (r, set_fs m' w).

(** [client.messages.create(...)]: the world answers. *)
Definition is_api (e : event) : bool :=
  match e with
  | EvApi _ _ _ _ _ => true
  | _ => false
  end.

Definition api_count (t : list event) : nat := length (List.filter is_api t).

Definition messages_create (key model : str) (max_tokens temperature : N)
                           (prompt : str) : M (list str) :=
  fun w =>
    (match api w (api_count (trace w)) key prompt with
     | Reply content => Ok content
     | Failure msg => Raise (Exn APIError msg)
     end,
     add_event (EvApi key model max_tokens temperature prompt) w).

(** [datetime.now().isoformat()] *)
Definition now_isoformat : M str :=
  fun w => (Ok (clock w (ticks w)), tick w).

(** ** SummaryGenerator *)

(** Truth value of a string: non-empty. *)
Definition truthy (s : str) : bool :=
  match s with
  | [] => false
  | _ :: _ => true
  end.

Record SummaryGenerator := mkGenerator {
  workspace_path : Path;
  docs_path : Path;
  (** the client, which holds the key it was built with *)
  client : str;
}.

(** [SummaryGenerator.__init__] *)
Definition __init__ (workspace api_key : str) : SummaryGenerator :=
  let workspace_path := parse_path workspace in
  mkGenerator workspace_path
    (joinpath (joinpath workspace_path (parse_path (u "docs")))
              (parse_path (u "codebase")))
    api_key.

(** The character budget of the prompt, [8000]. *)
Definition budget : nat := N.to_nat 8000.

(** The truncation marker and the closing piece of the prompt. *)
Definition marker : str := u "...[truncated]".

Definition prompt_tail : str :=
  u "
```

Generate the summary now. Be precise and focused on information that would help an AI understand the codebase architecture.".

(** [SummaryGenerator.build_analysis_prompt]: the f-string, piece by piece. *)
Definition build_analysis_prompt (rel_path file_ext content : str) : str :=
  u "Analyze this source file and generate a structured Markdown summary optimized for AI consumption.

**File**: `"
  ++ rel_path
  ++ u "`

**Your task**: Create a clear, structured summary that will help an AI assistant quickly understand this file's purpose, structure, and dependencies.

**Required sections** (use this exact format):

# "
  ++ stem (parse_path rel_path)
  ++ u "

## Purpose
One concise paragraph explaining what this file does and why it exists.

## Key Components
List the main classes, functions, or exports with brief descriptions:
- `ComponentName`: What it does
- `functionName()`: What it does

## Dependencies
### Internal (from this codebase)
- `path/to/file.py` - What you use from it
- `another/file.ts` - What you use from it

### External (libraries/packages)
- `library-name` - What features you use

## Public API
What this file exposes for other files to use:
- `export function doThing()`: Description
- `class MyClass`: Description

## Code Links
Direct references to key definitions (use format `[symbol_name](code:"
  ++ rel_path
  ++ u "#symbol=symbol_name)`):
- [main_function](code:"
  ++ rel_path
  ++ u "#symbol=main_function)
- [ClassName](code:"
  ++ rel_path
  ++ u "#symbol=ClassName)

## Implementation Notes
Any important patterns, algorithms, or gotchas an AI should know about.

---

**Source code**:
```"
  ++ (if truthy file_ext then drop 1 file_ext else u "txt")
  ++ u "
"
  ++ take budget content
  ++ u "  "
  ++ (if (budget <? length content)%nat then marker else [])
  ++ prompt_tail.

Definition model_id : str := u "claude-sonnet-4-20250514".

(** [SummaryGenerator.generate_single_summary] *)
Definition generate_single_summary (self : SummaryGenerator) (file_path : str)
  : M str :=
  log_event (EvSummaryStep file_path) ;;;
  content <- read_text file_path ;;
  rel_path <- lift (relative_to (parse_path file_path) (workspace_path self)) ;;
  let file_ext := suffix (parse_path file_path) in
  let prompt := build_analysis_prompt (path_str rel_path) file_ext content in
  message <- messages_create (client self) model_id 4096 0 prompt ;;
  match message with
  | text :: _ => ret text
  | [] => raise (Exn IndexError (u "list index out of range"))
  end.

(** *** json.dump(metadata, f, indent=2) *)

Definition dq : str := [34].

Definition hex_digit (d : N) : char :=
  if d <? 10 then 48 + d else 87 + d.

(** four lower-case hexadecimal digits *)
Definition hex4 (n : N) : str :=
  [hex_digit (n / 4096 mod 16); hex_digit (n / 256 mod 16);
   hex_digit (n / 16 mod 16); hex_digit (n mod 16)].

Definition backslash : char := 92.

(** One character under [ensure_ascii=True]. *)
Definition json_escape_char (c : char) : str :=
  if c =? 34 then [backslash; 34]
  else if c =? 92 then [backslash; backslash]
  else if c =? 10 then backslash :: u "n"
  else if c =? 13 then backslash :: u "r"
  else if c =? 9 then backslash :: u "t"
  else if c =? 8 then backslash :: u "b"
  else if c =? 12 then backslash :: u "f"
  else if (32 <=? c) && (c <=? 126) then [c]
  else if c <? 65536 then backslash :: u "u" ++ hex4 c
  else
    let v := c - 65536 in
    let s1 := N.lor 55296 (N.land (N.shiftr v 10) 1023) in
    let s2 := N.lor 56320 (N.land v 1023) in
    backslash :: u "u" ++ hex4 s1 ++ backslash :: u "u" ++ hex4 s2.

Definition json_string (s : str) : str :=
  dq ++ concat (json_escape_char <$> s) ++ dq.

Definition json_item (kv : str * str) : str :=
  u "  " ++ json_string (fst kv) ++ u ": " ++ json_string (snd kv).

(** A dictionary of strings, with [indent=2]. *)
Definition json_dump (d : list (str * str)) : str :=
  match d with
  | [] => u "{}"
  | _ => u "{" ++ [10] ++ join (u "," ++ [10]) (json_item <$> d) ++ [10] ++ u "}"
  end.

(** [SummaryGenerator.save_summary] *)
Definition save_summary (self : SummaryGenerator) (rel_path : Path)
                        (summary : str) : M unit :=
  md <- lift (with_suffix rel_path (u ".md")) ;;
  let summary_path := joinpath (docs_path self) md in
  mkdir_parents (parent summary_path) ;;;
  write_text summary_path summary ;;;
  summary_file <- lift (with_suffix rel_path (u ".md")) ;;
  generated_at <- now_isoformat ;;
  let metadata :=
    [(u "source_file", path_str rel_path);
     (u "summary_file", path_str summary_file);
     (u "generated_at", generated_at)] in
  metadata_path <- lift (with_suffix summary_path (u ".json")) ;;
  write_text metadata_path (json_dump metadata).

(** The body of the [try] in [generate_summaries]. *)
Definition process_file (self : SummaryGenerator) (idx total : nat)
                        (file_path : str) : M unit :=
  rel_path <- lift (relative_to (parse_path file_path) (workspace_path self)) ;;
  print (u "Processing " ++ str_of_nat idx ++ u "/" ++ str_of_nat total
           ++ u ": " ++ path_str rel_path) ;;;
  summary <- generate_single_summary self file_path ;;
  save_summary self rel_path summary.

(** The [except Exception as e] clause. *)
Definition error_line (file_path : str) (e : exn) : str :=
  u "ERROR: Failed to process " ++ file_path ++ u ": " ++ exn_str e.

Definition on_error (file_path : str) (e : exn) : M unit :=
  print_err (error_line file_path e).

(** One turn of the [for] loop. *)
Definition loop_turn (self : SummaryGenerator) (idx total : nat)
                     (file_path : str) : M unit :=
  try_except (process_file self idx total file_path) (on_error file_path).

(** [for idx, file_path in enumerate(file_paths, idx)] *)
Fixpoint summaries_loop (self : SummaryGenerator) (idx total : nat)
                        (file_paths : list str) : M unit :=
  match file_paths with
  | [] => ret tt
  | file_path :: rest =>
      loop_turn self idx total file_path ;;;
      summaries_loop self (S idx) total rest
  end.

(** [SummaryGenerator.generate_summaries] *)
Definition generate_summaries (self : SummaryGenerator) (file_paths : list str)
  : M unit :=
  mkdir_parents (docs_path self) ;;;
  let total := length file_paths in
  summaries_loop self 1 total file_paths.

(** ** main *)

(** The lines of a text, each with its newline, as iterating a file gives
    them. *)
Fixpoint readlines (s : str) : list str :=
  match s with
  | [] => []
  | c :: r =>
      if c =? 10 then [c] :: readlines r
      else match readlines r with
           | [] => [[c]]
           | l :: ls => (c :: l) :: ls
           end
  end.

(** The white space of [str.strip()]. *)
Definition is_space (c : char) : bool :=
  ((9 <=? c) && (c <=? 13)) || ((28 <=? c) && (c <=? 32))
  || (c =? 133) || (c =? 160) || (c =? 5760)
  || ((8192 <=? c) && (c <=? 8202))
  || (c =? 8232) || (c =? 8233) || (c =? 8239) || (c =? 8287) || (c =? 12288).

Fixpoint lstrip (s : str) : str :=
  match s with
  | c :: r => if is_space c then lstrip r else s
  | [] => []
  end.

Definition rstrip (s : str) : str := rev (lstrip (rev s)).

Definition strip (s : str) : str := rstrip (lstrip s).

(** The parsed command line. *)
Record Args := mkArgs {
  workspace : str;
  files : str;
  api_key : option str;
}.

Definition opt_truthy (o : option str) : bool :=
  match o with
  | Some s => truthy s
  | None => false
  end.

(** [os.environ.get('ANTHROPIC_API_KEY')] *)
Definition getenv_api_key : M (option str) :=
  fun w => (Ok (environ_api_key w), w).

(** [sys.exit(code)] *)
Definition sys_exit {A} (code : N) : M A := raise (SystemExit code).

(** [[line.strip() for line in f if line.strip()]] *)
Definition file_list (content : str) : list str :=
  List.filter truthy (strip <$> readlines content).

Definition success_line (n : nat) : str :=
  [10; 8218; 250; 214] ++ u " Successfully generated " ++ str_of_nat n
    ++ u " summaries".

Definition location_line (p : Path) : str :=
  [63743; 252; 236; 197] ++ u " Output location: " ++ path_str p.

(** [main], from the parsed command line on: [parser.parse_args()] has
    returned [args] (the exits of argparse itself, on a usage error or after
    [--help], come before and are not part of this). *)
Definition main (args : Args) : M unit :=
  key <- (if opt_truthy (api_key args) then ret (api_key args)
          else getenv_api_key) ;;
  (if negb (opt_truthy key) then
     print_err (u "ERROR: API key required. Set ANTHROPIC_API_KEY or use --api-key") ;;;
     sys_exit 1
   else ret tt) ;;;
  content <- read_text (files args) ;;
  let file_paths := file_list content in
  (match file_paths with
   | [] => print_err (u "ERROR: No files to process") ;;; sys_exit 1
   | _ :: _ => ret tt
   end) ;;;
  let generator := __init__ (workspace args) (default [] key) in
  generate_summaries generator file_paths ;;;
  print (success_line (length file_paths)) ;;;
  print (location_line (docs_path generator)).

(** The exit status of the process: [0] when [main] returns, the code of
    [sys.exit], and [1] when an exception reaches the top level. *)
Definition exit_status {A} (r : res A) : N :=
  match r with
  | Ok _ => 0
  | Raise (SystemExit code) => code
  | Raise (Exn _ _) => 1
  end.

Definition run_main (args : Args) (w : World) : N * World :=
  (exit_status (main args w).1, (main args w).2).

(** ** Observations on a run *)

Definition summary_steps (t : list event) : list str :=
  omap (fun e => match e with EvSummaryStep f => Some f | _ => None end) t.

Definition api_prompts (t : list event) : list str :=
  omap (fun e => match e with EvApi _ _ _ _ p => Some p | _ => None end) t.

Definition opened_for_reading (t : list event) : list str :=
  omap (fun e => match e with EvOpenRead f => Some f | _ => None end) t.

(** ** The vocabulary of the properties *)

(** [args.api_key or os.environ.get('ANTHROPIC_API_KEY')] *)
Definition resolve_key (args : Args) (w : World) : option str :=
  if opt_truthy (api_key args) then api_key args else environ_api_key w.

(** The directory [p] exists or [mkdir] can make it. *)
Definition can_mkdir (p : Path) (m : gmap Path node) : bool :=
  match (mkdir_parents_rev (root p) (rev (parts p)) m).1 with
  | Ok _ => true
  | Raise _ => false
  end.

(** [F] lies under [W]: the same root, and the components of [W] first. *)
Definition under (W F : Path) : Prop :=
  root F = root W /\ parts W `prefix_of` parts F.

#[global] Instance under_dec W F : Decision (under W F).
Proof. unfold under. apply _. Defined.

Definition in_workspace (self : SummaryGenerator) (file_path : str) : bool :=
  bool_decide (under (workspace_path self) (parse_path file_path)).

(** An extension such as [.md]: a dot, then at least one character, none of
    them a dot or a slash. *)
Definition is_ext (sfx : str) : Prop :=
  exists rest, sfx = dot :: rest /\ rest <> []
               /\ rfind dot rest = None /\ contains_char sep sfx = false.

(** [p] with its extension replaced by [ext]: the directory of [p], then
    the stem of its name followed by [ext]. *)
Definition replace_ext (p : Path) (ext : str) : Path :=
  mkPath (root p) (removelast (parts p) ++ [stem p ++ ext]).

(** The output path for the workspace-relative path [rel]. *)
Definition out_path (docs rel : Path) (ext : str) : Path :=
  mkPath (root docs) (parts docs ++ removelast (parts rel) ++ [stem rel ++ ext]).

(** The part of [process_file] that comes before [save_summary]. *)
Definition before_save (self : SummaryGenerator) (idx total : nat)
                       (file_path : str) : M (Path * str) :=
  rel_path <- lift (relative_to (parse_path file_path) (workspace_path self)) ;;
  print (u "Processing " ++ str_of_nat idx ++ u "/" ++ str_of_nat total
           ++ u ": " ++ path_str rel_path) ;;;
  summary <- generate_single_summary self file_path ;;
  ret (rel_path, summary).

(** [preserves f c]: running [c] does not change the observation [f] of the
    world, whether [c] returns or raises. *)
Definition preserves {A X} (f : World -> X) (c : M A) : Prop :=
  forall w, f (c w).2 = f w.

Definition any_event (e : event) : Prop := True.

Definition not_summary_step (e : event) : Prop :=
  match e with
  | EvSummaryStep _ => False
  | _ => True
  end.

(** Instances of [Exception], which [except Exception] catches. *)
Definition is_Exception (e : exn) : Prop :=
  match e with
  | Exn _ _ => True
  | SystemExit _ => False
  end.

Definition raises_Exception {A} (r : res A) : Prop :=
  forall e, r = Raise e -> is_Exception e.

Definition catchable {A} (c : M A) : Prop :=
  forall w, raises_Exception (c w).1.

(** [int(s)] for a string of decimal digits. *)
Fixpoint decimal_value_from (acc : N) (s : str) : N :=
  match s with
  | [] => acc
  | c :: r => decimal_value_from (10 * acc + (c - 48)) r
  end.

Definition decimal_value (s : str) : N := decimal_value_from 0 s.

(** [pat] occurs in [s] as a contiguous piece. *)
Definition occurs (pat s : str) : Prop :=
  exists pre post, s = pre ++ pat ++ post.

Fixpoint occursb (pat s : str) : bool :=
  startswith pat s
  || match s with
     | [] => false
     | _ :: r => occursb pat r
     end.

(** A literal piece of a template that does not hold the pattern and ends
    with a character the pattern does not have; a piece that starts with
    such a character. *)
Definition ends_clean (pat L : str) : bool :=
  negb (occursb pat L)
  && match rev L with
     | d :: _ => negb (contains_char d pat)
     | [] => false
     end.

Definition starts_clean (pat L : str) : bool :=
  match L with
  | d :: _ => negb (contains_char d pat)
  | [] => false
  end.

(** *** A small world to run the code in *)
Module Demo.

Definition ws : str := u "/ws".

Definition list_path : str := u "/tmp/files.txt".

Definition reply (n : nat) (key prompt : str) : api_reply :=
  Reply [u "# summary " ++ str_of_nat n].

Definition world (files_txt : str) (extra : list (Path * node)) : World :=
  mkWorld
    (list_to_map
       ([(parse_path (u "/ws"), Dir);
         (parse_path (u "/ws/src"), Dir);
         (parse_path (u "/ws/src/foo"), Dir);
         (parse_path (u "/ws/src/foo/bar.ts"), File (u "export const x = 1;"));
         (parse_path (u "/ws/a.py"), File (u "print(1)"));
         (parse_path (u "/tmp"), Dir);
         (parse_path (u "/tmp/x.py"), File (u "print(2)"));
         (parse_path list_path, File files_txt)] ++ extra))
    None reply (fun n => u "2025-01-01T00:00:0" ++ str_of_nat n) 0 [] [] [].

Definition args : Args := mkArgs ws list_path (Some (u "sk-test")).

End Demo.

(** ** Vocabulary of the further properties *)

(** [respects R c]: the world that [c] leaves is related by [R] to the one
    it started in, whether [c] returns or raises. *)
Definition respects {A} (R : World -> World -> Prop) (c : M A) : Prop :=
  forall w, R w (c w).2.

Definition key_error : str :=
  u "ERROR: API key required. Set ANTHROPIC_API_KEY or use --api-key".

(** A few more worlds to run the code in. *)
Module Demo2.

Definition with_env (k : option str) (w : World) : World :=
  mkWorld (fs w) k (api w) (clock w) (ticks w) (stdout w) (stderr w) (trace w).

Definition with_api (a : nat -> str -> str -> api_reply) (w : World) : World :=
  mkWorld (fs w) (environ_api_key w) a (clock w) (ticks w)
          (stdout w) (stderr w) (trace w).

End Demo2.

(** A request as [generate_single_summary] sends it with the key [key]. *)
Definition request_ok (key : str) (e : event) : Prop :=
  match e with
  | EvApi k model max_tokens temperature _ =>
      k = key /\ model = model_id /\ max_tokens = 4096 /\ temperature = 0
  | _ => True
  end.

(** The run from [w] to [w'] added events that all satisfy [P]. *)
Definition emits (P : event -> Prop) (w w' : World) : Prop :=
  exists evs, trace w' = trace w ++ evs /\ Forall P evs.





(** The files of the list whose processing raises, each with the exception
    raised, in the order of the list: every turn starts in the world that
    the turn before it left. *)
Fixpoint loop_failures (self : SummaryGenerator) (idx total : nat)
                       (file_paths : list str) (w : World) : list (str * exn) :=
  match file_paths with
  | [] => []
  | file_path :: rest =>
      match (process_file self idx total file_path w).1 with
      | Raise e => [(file_path, e)]
      | Ok _ => []
      end
      ++ loop_failures self (S idx) total rest
           (loop_turn self idx total file_path w).2
  end.


Definition any_fs (m m' : gmap Path node) : Prop := True.

(** The line that announces a file. *)
Definition progress_line (idx total : nat) (rel_path : Path) : str :=
  u "Processing " ++ str_of_nat idx ++ u "/" ++ str_of_nat total
    ++ u ": " ++ path_str rel_path.

(** The lines that announce the files of a list, numbered from [idx]: one
    for each file under [W], with the position of the file in the list. *)
Fixpoint progress_lines (W : Path) (idx total : nat) (file_paths : list str)
  : list str :=
  match file_paths with
  | [] => []
  | file_path :: rest =>
      match relative_to (parse_path file_path) W with
      | Ok rel_path => [progress_line idx total rel_path]
      | Raise _ => []
      end ++ progress_lines W (S idx) total rest
  end.

(** From [m] to [m'] nothing changed but that directories were made, at
    paths of [S] where there was nothing. *)
Definition adds_dirs (S : Path -> Prop) (m m' : gmap Path node) : Prop :=
  forall q, m' !! q = m !! q
            \/ (m !! q = None /\ m' !! q = Some Dir /\ S q).

(** [q] is [p] or one of the directories above it. *)
Definition above (p q : Path) : Prop := under q p.



(** The file list that [main] reads in the world [w]. *)
Definition listed_files (args : Args) (w : World) : list str :=
  match lookup_node (fs w) (parse_path (files args)) with
  | Some (File content) => file_list (universal_newlines content)
  | _ => []
  end.


Definition same_kind (x y : node) : Prop :=
  match x, y with
  | Dir, Dir => True
  | File _, File _ => True
  | _, _ => False
  end.

(** What is in [m] is still in [m'], a file as a file and a directory as a
    directory. *)
Definition kinds_kept (m m' : gmap Path node) : Prop :=
  forall q x, m !! q = Some x -> exists y, m' !! q = Some y /\ same_kind x y.


Definition fs_kinds_kept (w w' : World) : Prop := kinds_kept (fs w) (fs w').

Definition every_event (e : event) : Prop := True.

(** A name component as [Path(s)] keeps them: not empty, not a single dot,
    with no slash. *)
Definition clean_part (x : str) : Prop := x <> [] /\ x <> [dot] /\ sep ∉ x.

(** A printable ASCII character, or a line feed. *)
Definition plain_ascii (c : char) : Prop := c = 10 \/ (32 <= c /\ c <= 126).


(** * Properties *)

(** ** The embedding on concrete inputs *)

Example parse_path_example :
  parse_path (u "/ws//src/./foo/bar.ts/")
  = mkPath (u "/") [u "ws"; u "src"; u "foo"; u "bar.ts"]
  /\ parse_path (u "//ws") = mkPath (u "//") [u "ws"]
  /\ parse_path (u "///ws") = mkPath (u "/") [u "ws"]
  /\ path_str (parse_path (u "./")) = u ".".
Proof. by vm_compute. Qed.

Example with_suffix_example :
  with_suffix (parse_path (u "src/foo/bar.ts")) (u ".md")
  = Ok (parse_path (u "src/foo/bar.md"))
  /\ with_suffix (parse_path (u "pkg/archive.tar.gz")) (u ".md")
     = Ok (parse_path (u "pkg/archive.tar.md"))
  /\ with_suffix (parse_path (u "Makefile")) (u ".md")
     = Ok (parse_path (u "Makefile.md"))
  /\ with_suffix (parse_path (u ".gitignore")) (u ".md")
     = Ok (parse_path (u ".gitignore.md"))
  /\ with_suffix (parse_path (u ".")) (u ".md")
     = Raise (Exn ValueError (u "PosixPath('.') has an empty name")).
Proof. by vm_compute. Qed.

Example relative_to_example :
  relative_to (parse_path (u "/ws/src/a.py")) (parse_path (u "/ws"))
  = Ok (parse_path (u "src/a.py"))
  /\ relative_to (parse_path (u "/tmp/x.py")) (parse_path (u "/ws"))
     = Raise (Exn ValueError (u "'/tmp/x.py' is not in the subpath of '/ws'"))
  /\ relative_to (parse_path (u "src/a.py")) (parse_path (u "/ws"))
     = Raise (Exn ValueError (u "'src/a.py' is not in the subpath of '/ws'")).
Proof. by vm_compute. Qed.

Example file_list_example :
  file_list (universal_newlines
               ([32] ++ u "/ws/a.py" ++ [32; 13; 10; 13; 10; 9; 10] ++ u "/ws/b c.py"))
  = [u "/ws/a.py"; u "/ws/b c.py"].
Proof. by vm_compute. Qed.

(** [str(n)] is the decimal numeral of [n]. *)
Lemma decimal_value_from_app acc s t :
  decimal_value_from acc (s ++ t) = decimal_value_from (decimal_value_from acc s) t.
Proof. revert acc. induction s as [|c s IH]; intros acc; simpl; [done | apply IH]. Qed.

Lemma str_of_pos_fuel_acc fuel n acc :
  str_of_pos_fuel fuel n acc = str_of_pos_fuel fuel n [] ++ acc.
Proof.
  revert n acc. induction fuel as [|fuel IH]; intros n acc; simpl; [done|].
  destruct (n / 10 =? 0); [done|].
  rewrite (IH _ (_ :: acc)), (IH _ [_]). by rewrite <- app_assoc.
Qed.

Lemma str_of_pos_fuel_value fuel n :
  n < 2 ^ N.of_nat fuel -> decimal_value (str_of_pos_fuel fuel n []) = n.
Proof.
  revert n. induction fuel as [|fuel IH]; intros n Hn.
  - change (2 ^ N.of_nat 0) with 1 in Hn. unfold decimal_value.
    cbn [str_of_pos_fuel decimal_value_from]. lia.
  - assert (Hq : n / 10 < 2 ^ N.of_nat fuel).
    { rewrite Nat2N.inj_succ, N.pow_succ_r' in Hn.
      revert Hn. generalize (2 ^ N.of_nat fuel). intros P HP.
      apply N.Div0.div_lt_upper_bound. lia. }
    clear Hn. simpl str_of_pos_fuel.
    pose proof (N.div_mod n 10 ltac:(lia)) as Hdm.
    assert (Hd : 48 + n mod 10 - 48 = n mod 10)
      by (by rewrite N.add_comm, N.add_sub).
    destruct (n / 10 =? 0) eqn:E.
    + apply N.eqb_eq in E. unfold decimal_value, digit_char.
      cbn [decimal_value_from]. rewrite Hd. rewrite E in Hdm. by symmetry.
    + rewrite str_of_pos_fuel_acc. unfold decimal_value.
      rewrite decimal_value_from_app.
      fold (decimal_value (str_of_pos_fuel fuel (n / 10) [])).
      rewrite (IH _ Hq). unfold digit_char. cbn [decimal_value_from].
      rewrite Hd. by symmetry.
Qed.

Lemma str_of_N_value n : decimal_value (str_of_N n) = n.
Proof.
  unfold str_of_N. apply str_of_pos_fuel_value.
  rewrite Nat2N.inj_succ, N2Nat.id.
  destruct n as [|p]; [done|]. apply N.log2_spec. lia.
Qed.

Lemma str_of_nat_value n : decimal_value (str_of_nat n) = N.of_nat n.
Proof. apply str_of_N_value. Qed.

Example str_of_nat_example :
  str_of_nat 0 = u "0" /\ str_of_nat 7 = u "7" /\ str_of_nat 10 = u "10"
  /\ str_of_nat 1234 = u "1234".
Proof. by vm_compute. Qed.

Example json_string_example :
  json_string ([97; 34; 92; 10; 233; 128193])
  = [34; 97; 92; 34; 92; 92; 92; 110] ++ [92] ++ u "u00e9"
    ++ [92] ++ u "ud83d" ++ [92] ++ u "udcc1" ++ [34].
Proof. by vm_compute. Qed.

(** ** Running the monad *)

Lemma bind_Ok {A B} (c : M A) (k : A -> M B) w a w' :
  c w = (Ok a, w') -> bind c k w = k a w'.
Proof. unfold bind. by intros ->. Qed.

Lemma bind_Raise {A B} (c : M A) (k : A -> M B) w e w' :
  c w = (Raise e, w') -> bind c k w = (Raise e, w').
Proof. unfold bind. by intros ->. Qed.

Lemma bind_inv_Ok {A B} (c : M A) (k : A -> M B) w b w2 :
  bind c k w = (Ok b, w2) -> exists a w1, c w = (Ok a, w1) /\ k a w1 = (Ok b, w2).
Proof.
  unfold bind. destruct (c w) as [[a|e] w1]; [eauto | discriminate].
Qed.

Lemma lift_Ok {A} (r : res A) a w : r = Ok a -> lift r w = (Ok a, w).
Proof. by intros ->. Qed.

Lemma lift_Raise {A} (r : res A) e w : r = Raise e -> lift r w = (Raise e, w).
Proof. by intros ->. Qed.

(** ** Frames: what a computation leaves alone *)

Section Frames.
Context {X : Type} (f : World -> X).

Lemma preserves_ret {A} (a : A) : preserves f (ret a).
Proof. by intros w. Qed.

Lemma preserves_raise {A} e : preserves f (@raise A e).
Proof. by intros w. Qed.

Lemma preserves_lift {A} (r : res A) : preserves f (lift r).
Proof. by intros w. Qed.

Lemma preserves_bind {A B} (c : M A) (k : A -> M B) :
  preserves f c -> (forall a, preserves f (k a)) -> preserves f (bind c k).
Proof.
  intros Hc Hk w. unfold bind. specialize (Hc w).
  destruct (c w) as [[a|e] w1]; simpl in *; [by rewrite Hk | done].
Qed.

(** The primitives, each under the condition on [f] that it needs.
    [quiet e]: [f] does not see the event [e]. *)

Variable quiet : event -> Prop.
Hypothesis f_event : forall e w, quiet e -> f (add_event e w) = f w.

Lemma preserves_log_event e : quiet e -> preserves f (log_event e).
Proof. intros He w. by apply f_event. Qed.

Lemma preserves_read_text file :
  quiet (EvOpenRead file) -> preserves f (read_text file).
Proof.
  intros He. apply preserves_bind; [by apply preserves_log_event|]. intros _ w.
  by destruct (lookup_node _ _) as [[]|].
Qed.

Lemma preserves_messages_create key model mt temp prompt :
  quiet (EvApi key model mt temp prompt) ->
  preserves f (messages_create key model mt temp prompt).
Proof. intros He w. by apply f_event. Qed.

Hypothesis f_fs : forall m w, f (set_fs m w) = f w.

Lemma preserves_write_text p content :
  quiet (EvOpenWrite p) -> preserves f (write_text p content).
Proof.
  intros He. apply preserves_bind; [by apply preserves_log_event|]. intros _ w.
  destruct (lookup_node (fs w) p) as [[]|];
    destruct (lookup_node (fs w) (parent p)) as [[]|]; simpl; by rewrite ?f_fs.
Qed.

Lemma preserves_mkdir_parents p :
  quiet (EvMkdir p) -> preserves f (mkdir_parents p).
Proof.
  intros He. apply preserves_bind; [by apply preserves_log_event|]. intros _ w.
  destruct (mkdir_parents_rev _ _ _); simpl; by rewrite f_fs.
Qed.

Hypothesis f_tick : forall w, f (tick w) = f w.

Lemma preserves_now : preserves f now_isoformat.
Proof. intros w. apply f_tick. Qed.

Lemma preserves_save_summary self rel_path summary :
  (forall p, quiet (EvMkdir p)) -> (forall p, quiet (EvOpenWrite p)) ->
  preserves f (save_summary self rel_path summary).
Proof.
  intros Hm Hw. unfold save_summary.
  repeat (first [ apply preserves_lift | by apply preserves_mkdir_parents
                | by apply preserves_write_text | apply preserves_now
                | apply preserves_bind; [|intros ?] ]).
Qed.
End Frames.

(** Only [save_summary] touches the file system, and that after the summary
    step has returned. *)
Lemma generate_single_summary_fs self file_path w :
  fs (generate_single_summary self file_path w).2 = fs w.
Proof.
  revert w. change (preserves fs (generate_single_summary self file_path)).
  unfold generate_single_summary.
  repeat (first [ by apply (preserves_log_event fs any_event)
                | by apply (preserves_read_text fs any_event)
                | apply preserves_lift
                | by apply (preserves_messages_create fs any_event)
                | apply preserves_raise | apply preserves_ret
                | match goal with
                  | |- preserves _ (match ?x with _ => _ end) => destruct x
                  end
                | apply preserves_bind; [|intros ?] ]).
Qed.

Lemma summary_steps_quiet e w :
  not_summary_step e ->
  summary_steps (trace (add_event e w)) = summary_steps (trace w).
Proof.
  intros He. unfold summary_steps. simpl. rewrite omap_app. simpl.
  destruct e; simpl in *; by rewrite ?app_nil_r.
Qed.

(** The summary step announces itself once and is otherwise invisible in
    the list of summary steps. *)
Lemma generate_single_summary_steps self file_path w :
  summary_steps (trace (generate_single_summary self file_path w).2)
  = summary_steps (trace w) ++ [file_path].
Proof.
  unfold generate_single_summary.
  rewrite (bind_Ok _ _ w tt (add_event (EvSummaryStep file_path) w)) by done.
  set (w1 := add_event (EvSummaryStep file_path) w).
  transitivity (summary_steps (trace w1)).
  - clearbody w1. revert w1.
    match goal with
    | |- forall w0, summary_steps (trace (?c w0).2) = _ =>
        change (preserves (fun w => summary_steps (trace w)) c)
    end.
    repeat (first [ by apply (preserves_read_text _ _ summary_steps_quiet)
                  | apply preserves_lift
                  | by apply (preserves_messages_create _ _ summary_steps_quiet)
                  | apply preserves_raise | apply preserves_ret
                  | match goal with
                    | |- preserves _ (match ?x with _ => _ end) => destruct x
                    end
                  | apply preserves_bind; [|intros ?] ]).
  - unfold w1, summary_steps. simpl. by rewrite omap_app.
Qed.

Lemma save_summary_steps self rel_path summary w :
  summary_steps (trace (save_summary self rel_path summary w).2)
  = summary_steps (trace w).
Proof.
  revert w.
  change (preserves (fun w => summary_steps (trace w))
                    (save_summary self rel_path summary)).
  by apply (preserves_save_summary _ _ summary_steps_quiet).
Qed.

Lemma process_file_stderr self idx total file_path w :
  stderr (process_file self idx total file_path w).2 = stderr w.
Proof.
  revert w. change (preserves stderr (process_file self idx total file_path)).
  unfold process_file, generate_single_summary.
  repeat (first [ by apply (preserves_log_event stderr any_event)
                | by apply (preserves_read_text stderr any_event)
                | by apply (preserves_messages_create stderr any_event)
                | by apply (preserves_save_summary stderr any_event)
                | apply preserves_lift | apply preserves_raise | apply preserves_ret
                | by intros ?
                | match goal with
                  | |- preserves _ (match ?x with _ => _ end) => destruct x
                  end
                | apply preserves_bind; [|intros ?] ]).
Qed.


(** ** Paths under the workspace root *)

Lemma str_eqb_true a b : str_eqb a b = true <-> a = b.
Proof. unfold str_eqb. by rewrite bool_decide_eq_true. Qed.

Lemma str_eqb_false a b : str_eqb a b = false <-> a <> b.
Proof. unfold str_eqb. by rewrite bool_decide_eq_false. Qed.

Lemma strip_prefix_Some pre l rest :
  strip_prefix pre l = Some rest <-> l = pre ++ rest.
Proof.
  revert l. induction pre as [|a pre IH]; intros l; simpl.
  - split; [by intros [= ->] | by intros ->].
  - destruct l as [|b l]; [by split|].
    destruct (str_eqb a b) eqn:E.
    + apply str_eqb_true in E as ->. rewrite IH. split; [by intros -> | by intros [= ->]].
    + apply str_eqb_false in E. split; [done | by intros [= -> _]].
Qed.

Lemma strip_prefix_None pre l :
  strip_prefix pre l = None <-> ~ pre `prefix_of` l.
Proof.
  split.
  - intros H [k Hk]. apply strip_prefix_Some in Hk. congruence.
  - intros H. destruct (strip_prefix pre l) as [rest|] eqn:E; [|done].
    apply strip_prefix_Some in E. destruct H. by exists rest.
Qed.

Lemma relative_to_under p W rel :
  relative_to p W = Ok rel <->
  root p = root W /\ root rel = [] /\ parts p = parts W ++ parts rel.
Proof.
  unfold relative_to. destruct (str_eqb (root p) (root W)) eqn:Er.
  - apply str_eqb_true in Er.
    destruct (strip_prefix (parts W) (parts p)) as [rest|] eqn:E.
    + apply strip_prefix_Some in E. split.
      * by intros [= <-].
      * intros (_ & Hr & Hp). destruct rel as [r ps]; simpl in *. subst r.
        rewrite E in Hp. by apply app_inv_head in Hp as <-.
    + apply strip_prefix_None in E. split; [done|].
      intros (_ & _ & Hp). destruct E. by exists (parts rel).
  - apply str_eqb_false in Er. split; [done | by intros [? _]].
Qed.

Lemma relative_to_Ok_iff p W :
  (exists rel, relative_to p W = Ok rel) <-> under W p.
Proof.
  split.
  - intros [rel H]. apply relative_to_under in H as (Hr & _ & Hp).
    split; [done | by exists (parts rel)].
  - intros [Hr [k Hk]]. exists (mkPath [] k). by apply relative_to_under.
Qed.

Lemma relative_to_Raise p W :
  ~ under W p -> exists msg, relative_to p W = Raise (Exn ValueError msg).
Proof.
  intros H. destruct (relative_to p W) as [rel|e] eqn:E.
  - destruct H. apply relative_to_Ok_iff. eauto.
  - unfold relative_to in E.
    destruct (str_eqb _ _); [destruct (strip_prefix _ _)|]; simplify_eq; eauto.
Qed.

(** ** The loop *)

Lemma loop_turn_Raise self idx total file_path w cls msg w1 :
  process_file self idx total file_path w = (Raise (Exn cls msg), w1) ->
  loop_turn self idx total file_path w
  = (Ok tt, add_stderr (error_line file_path (Exn cls msg)) w1).
Proof. unfold loop_turn, try_except. by intros ->. Qed.

Lemma summaries_loop_cons self idx total file_path rest w w1 :
  loop_turn self idx total file_path w = (Ok tt, w1) ->
  summaries_loop self idx total (file_path :: rest) w
  = summaries_loop self (S idx) total rest w1.
Proof. intros H. simpl. by rewrite (bind_Ok _ _ _ _ _ H). Qed.

(** C9: a listed path that does not lie under the workspace root makes
    [relative_to] raise a [ValueError] inside the [try]: the turn of the loop
    is over with one line on the error stream and nothing else changed (no
    file opened, no request sent, the trace and the file system as before),
    and the loop goes on with the rest of the list. *)
Theorem C9_outside_workspace_skipped self idx total file_path rest w :
  ~ under (workspace_path self) (parse_path file_path) ->
  exists msg,
    relative_to (parse_path file_path) (workspace_path self)
    = Raise (Exn ValueError msg)
    /\ loop_turn self idx total file_path w
       = (Ok tt, add_stderr (error_line file_path (Exn ValueError msg)) w)
    /\ trace (loop_turn self idx total file_path w).2 = trace w
    /\ fs (loop_turn self idx total file_path w).2 = fs w
    /\ summaries_loop self idx total (file_path :: rest) w
       = summaries_loop self (S idx) total rest
           (add_stderr (error_line file_path (Exn ValueError msg)) w).
Proof.
  intros Hout. destruct (relative_to_Raise _ _ Hout) as [msg Hmsg].
  exists msg.
  assert (Hturn : loop_turn self idx total file_path w
                  = (Ok tt, add_stderr (error_line file_path (Exn ValueError msg)) w)).
  { apply loop_turn_Raise. unfold process_file.
    apply bind_Raise, lift_Raise, Hmsg. }
  rewrite Hturn. repeat split; try done.
  by apply summaries_loop_cons.
Qed.

Lemma C9_witness :
  exists msg,
    loop_turn (__init__ Demo.ws (u "sk-test")) 1 2 (u "/tmp/x.py")
              (Demo.world (u "/tmp/x.py") [])
    = (Ok tt, add_stderr (error_line (u "/tmp/x.py") (Exn ValueError msg))
                         (Demo.world (u "/tmp/x.py") [])).
Proof.
  destruct (C9_outside_workspace_skipped (__init__ Demo.ws (u "sk-test")) 1 2
              (u "/tmp/x.py") [] (Demo.world (u "/tmp/x.py") [])) as (msg & _ & H & _).
  - intros [_ [k Hk]]. vm_compute in Hk. discriminate.
  - by exists msg.
Defined.

(** C6: with no key on the command line and none in the environment, the
    process writes the error line and exits with status 1; nothing else
    happened: in particular the file list was not opened. *)
Theorem C6_no_api_key_exit_1 args w :
  api_key args = None ->
  environ_api_key w = None ->
  run_main args w
  = (1, add_stderr
          (u "ERROR: API key required. Set ANTHROPIC_API_KEY or use --api-key") w)
  /\ opened_for_reading (trace (run_main args w).2) = opened_for_reading (trace w).
Proof.
  intros Ha He. unfold run_main, main, bind, getenv_api_key.
  rewrite Ha. simpl. by rewrite He.
Qed.

Lemma C6_witness :
  (run_main (mkArgs Demo.ws Demo.list_path None) (Demo.world (u "/ws/a.py") [])).1 = 1.
Proof.
  by rewrite (proj1 (C6_no_api_key_exit_1 (mkArgs Demo.ws Demo.list_path None)
                       (Demo.world (u "/ws/a.py") []) eq_refl eq_refl)).
Defined.
(** ** No [SystemExit] from inside the loop

    Every exception that the processing of a file can raise is an instance
    of [Exception], so the [except] clause of the loop catches it. *)

Lemma catchable_ret {A} (a : A) : catchable (ret a).
Proof. by intros w e. Qed.

Lemma catchable_lift {A} (r : res A) : raises_Exception r -> catchable (lift r).
Proof. by intros H w. Qed.

Lemma catchable_bind {A B} (c : M A) (k : A -> M B) :
  catchable c -> (forall a, catchable (k a)) -> catchable (bind c k).
Proof.
  intros Hc Hk w. unfold bind. specialize (Hc w).
  destruct (c w) as [[a|e] w1]; [apply Hk|].
  intros e' [= <-]. by apply Hc.
Qed.

Lemma catchable_log_event e : catchable (log_event e).
Proof. by intros w e'. Qed.

Lemma catchable_print s : catchable (print s).
Proof. by intros w e'. Qed.

Lemma catchable_now : catchable now_isoformat.
Proof. by intros w e'. Qed.

Lemma catchable_read_text file : catchable (read_text file).
Proof.
  apply catchable_bind; [apply catchable_log_event|]. intros _ w e.
  destruct (lookup_node _ _) as [[]|]; simpl; by intros [= <-].
Qed.

Lemma catchable_write_text p content : catchable (write_text p content).
Proof.
  apply catchable_bind; [apply catchable_log_event|]. intros _ w e.
  destruct (lookup_node (fs w) p) as [[]|];
    destruct (lookup_node (fs w) (parent p)) as [[]|]; simpl; by intros [= <-].
Qed.

Lemma catchable_messages_create key model mt temp prompt :
  catchable (messages_create key model mt temp prompt).
Proof.
  intros w e. unfold messages_create. simpl.
  destruct (api _ _ _ _); by intros [= <-].
Qed.

Lemma os_mkdir_raises p m : raises_Exception (os_mkdir p m).1.
Proof.
  intros e. unfold os_mkdir.
  destruct (lookup_node m p); [by intros [= <-]|].
  destruct (lookup_node m (parent p)) as [[]|]; by intros [= <-].
Qed.

Lemma mkdir_exist_ok_raises p m : raises_Exception (mkdir_exist_ok p m).1.
Proof.
  intros e. unfold mkdir_exist_ok.
  pose proof (os_mkdir_raises p m) as H.
  destruct (os_mkdir p m) as [[[]|e'] m']; [done|].
  specialize (H e' eq_refl).
  destruct (is_FileNotFoundError e'); [by intros [= <-]|].
  destruct (is_dir m' p); [done | by intros [= <-]].
Qed.

Lemma mkdir_parents_rev_eq r rparts m :
  mkdir_parents_rev r rparts m
  = let p := mkPath r (rev rparts) in
    match os_mkdir p m with
    | (Ok _, m') => (Ok tt, m')
    | (Raise e, m') =>
        if is_FileNotFoundError e then
          match rparts with
          | [] => (Raise e, m')
          | _ :: rparent =>
              match mkdir_parents_rev r rparent m' with
              | (Ok _, m1) => mkdir_exist_ok p m1
              | (Raise e1, m1) => (Raise e1, m1)
              end
          end
        else if is_dir m' p then (Ok tt, m') else (Raise e, m')
    end.
Proof. by destruct rparts. Qed.

Lemma mkdir_parents_rev_raises r rparts m :
  raises_Exception (mkdir_parents_rev r rparts m).1.
Proof.
  revert m. induction rparts as [|x rparts IH]; intros m e;
    rewrite mkdir_parents_rev_eq; cbv zeta;
    match goal with
    | |- context [os_mkdir ?p m] => pose proof (os_mkdir_raises p m) as H
    end;
    (destruct (os_mkdir _ m) as [[[]|e'] m']; [done|]);
    specialize (H e' eq_refl);
    (destruct (is_FileNotFoundError e');
     [| destruct (is_dir m' _); [done | by intros [= <-]]]).
  - by intros [= <-].
  - pose proof (IH m') as H1.
    destruct (mkdir_parents_rev r rparts m') as [[[]|e1] m1].
    + apply mkdir_exist_ok_raises.
    + intros [= <-]. by apply H1.
Qed.

Lemma catchable_mkdir_parents p : catchable (mkdir_parents p).
Proof.
  apply catchable_bind; [apply catchable_log_event|]. intros _ w.
  pose proof (mkdir_parents_rev_raises (root p) (rev (parts p)) (fs w)) as H.
  destruct (mkdir_parents_rev _ _ _) as [r m']. done.
Qed.

Lemma relative_to_raises p W : raises_Exception (relative_to p W).
Proof.
  intros e. unfold relative_to.
  destruct (str_eqb _ _); [destruct (strip_prefix _ _)|]; by intros [= <-].
Qed.

Lemma with_suffix_raises p sfx : raises_Exception (with_suffix p sfx).
Proof.
  intros e. unfold with_suffix.
  repeat (match goal with |- context [if ?b then _ else _] => destruct b end);
    by intros [= <-].
Qed.

Lemma catchable_generate_single_summary self file_path :
  catchable (generate_single_summary self file_path).
Proof.
  unfold generate_single_summary.
  repeat (first [ apply catchable_log_event | apply catchable_read_text
                | apply catchable_messages_create
                | apply catchable_lift, relative_to_raises
                | apply catchable_ret
                | match goal with
                  | |- catchable (match ?x with _ => _ end) => destruct x
                  end
                | by intros w e [= <-]
                | apply catchable_bind; [|intros ?] ]).
Qed.

Lemma catchable_save_summary self rel_path summary :
  catchable (save_summary self rel_path summary).
Proof.
  unfold save_summary.
  repeat (first [ apply catchable_mkdir_parents | apply catchable_write_text
                | apply catchable_now
                | apply catchable_lift, with_suffix_raises
                | apply catchable_bind; [|intros ?] ]).
Qed.

Lemma catchable_process_file self idx total file_path :
  catchable (process_file self idx total file_path).
Proof.
  unfold process_file.
  repeat (first [ apply catchable_print
                | apply catchable_generate_single_summary
                | apply catchable_save_summary
                | apply catchable_lift, relative_to_raises
                | apply catchable_bind; [|intros ?] ]).
Qed.

(** A turn of the loop always returns: whatever happened inside was caught. *)
Lemma loop_turn_returns self idx total file_path w :
  (loop_turn self idx total file_path w).1 = Ok tt.
Proof.
  pose proof (catchable_process_file self idx total file_path w) as H.
  unfold loop_turn, try_except.
  destruct (process_file _ _ _ _ w) as [[[]|[cls msg|code]] w1]; simpl in *; try done.
  by destruct (H _ eq_refl).
Qed.

Lemma summaries_loop_step self idx total file_path rest w :
  summaries_loop self idx total (file_path :: rest) w
  = summaries_loop self (S idx) total rest (loop_turn self idx total file_path w).2.
Proof.
  simpl. pose proof (loop_turn_returns self idx total file_path w) as H.
  destruct (loop_turn _ _ _ _ w) as [r w1] eqn:E. simpl in *. subst r.
  by rewrite (bind_Ok _ _ _ _ _ E).
Qed.

Lemma summaries_loop_app self idx total pre post w :
  summaries_loop self idx total (pre ++ post) w
  = summaries_loop self (idx + length pre) total post
      (summaries_loop self idx total pre w).2.
Proof.
  revert idx w. induction pre as [|f pre IH]; intros idx w.
  - simpl. by rewrite Nat.add_0_r.
  - rewrite <- app_comm_cons, !summaries_loop_step, IH. simpl.
    by rewrite Nat.add_succ_r.
Qed.

(** The loop runs to the end of the list, whatever the files do. *)
Lemma summaries_loop_returns self idx total file_paths w :
  (summaries_loop self idx total file_paths w).1 = Ok tt.
Proof.
  revert idx w. induction file_paths as [|f rest IH]; intros idx w; [done|].
  by rewrite summaries_loop_step.
Qed.

Lemma loop_turn_stderr_prefix self idx total file_path w :
  stderr w `prefix_of` stderr (loop_turn self idx total file_path w).2.
Proof.
  pose proof (process_file_stderr self idx total file_path w) as H.
  unfold loop_turn, try_except.
  destruct (process_file _ _ _ _ w) as [[[]|[cls msg|code]] w1]; simpl in *;
    rewrite <- H; [done | by apply prefix_app_r | done].
Qed.

Lemma summaries_loop_stderr_prefix self idx total file_paths w :
  stderr w `prefix_of` stderr (summaries_loop self idx total file_paths w).2.
Proof.
  revert idx w. induction file_paths as [|f rest IH]; intros idx w; [done|].
  rewrite summaries_loop_step.
  etrans; [apply loop_turn_stderr_prefix | apply IH].
Qed.

(** C2: when the processing of a file raises, the turn of the loop ends
    normally with one line on the error stream that holds the path of the
    file and the message of the exception; the loop then goes on with the
    files after it, runs to the end of the list, and the line is still on
    the error stream at the end. *)
Theorem C2_failure_logged_batch_continues self idx total pre file_path post w e w1 :
  process_file self (idx + length pre) total file_path
    (summaries_loop self idx total pre w).2 = (Raise e, w1) ->
  let line := u "ERROR: Failed to process " ++ file_path ++ u ": " ++ exn_str e in
  let final := summaries_loop self idx total (pre ++ file_path :: post) w in
  loop_turn self (idx + length pre) total file_path
    (summaries_loop self idx total pre w).2 = (Ok tt, add_stderr line w1)
  /\ final = summaries_loop self (S (idx + length pre)) total post (add_stderr line w1)
  /\ final.1 = Ok tt
  /\ line ∈ stderr final.2.
Proof.
  intros Hraise line final.
  pose proof (catchable_process_file self (idx + length pre) total file_path
                (summaries_loop self idx total pre w).2) as Hexc.
  rewrite Hraise in Hexc. specialize (Hexc e eq_refl).
  destruct e as [cls msg|code]; [|done].
  assert (Hturn : loop_turn self (idx + length pre) total file_path
                    (summaries_loop self idx total pre w).2
                  = (Ok tt, add_stderr line w1))
    by (by apply loop_turn_Raise).
  assert (Hfinal : final = summaries_loop self (S (idx + length pre)) total post
                             (add_stderr line w1)).
  { unfold final. by rewrite summaries_loop_app, summaries_loop_step, Hturn. }
  repeat split; [done | done | apply summaries_loop_returns |].
  rewrite Hfinal.
  eapply (elem_of_prefix (stderr (add_stderr line w1)));
    [|apply summaries_loop_stderr_prefix].
  simpl. apply elem_of_app. right. by apply list_elem_of_singleton.
Qed.

Lemma C2_witness :
  let w := Demo.world (u "/ws/missing.py") [] in
  let self := __init__ Demo.ws (u "sk-test") in
  exists e w1,
    process_file self 1 2 (u "/ws/missing.py") w = (Raise e, w1)
    /\ (u "ERROR: Failed to process " ++ u "/ws/missing.py" ++ u ": " ++ exn_str e)
       ∈ stderr (summaries_loop self 1 2 [u "/ws/missing.py"; u "/ws/a.py"] w).2.
Proof.
  intros w self.
  destruct (process_file self 1 2 (u "/ws/missing.py") w) as [r w1] eqn:E.
  destruct r as [[]|e]; [by vm_compute in E|].
  exists e, w1. split; [done|].
  by destruct (C2_failure_logged_batch_continues self 1 2 [] (u "/ws/missing.py")
                 [u "/ws/a.py"] w e w1 E) as (_ & _ & _ & H).
Defined.

(** ** main up to the batch *)

Lemma process_file_steps self idx total file_path w :
  summary_steps (trace (process_file self idx total file_path w).2)
  = summary_steps (trace w)
    ++ (if in_workspace self file_path then [file_path] else []).
Proof.
  unfold in_workspace. case_bool_decide as Hu.
  - apply relative_to_Ok_iff in Hu as [rel Hrel]. unfold process_file.
    rewrite (bind_Ok _ _ _ _ _ (lift_Ok _ _ w Hrel)).
    match goal with
    | |- context [bind (print ?s) _ w] =>
        rewrite (bind_Ok (print s) _ w tt (add_stdout s w)) by done;
        set (w0 := add_stdout s w)
    end.
    pose proof (generate_single_summary_steps self file_path w0) as Hs.
    unfold bind.
    destruct (generate_single_summary self file_path w0) as [[summary|e] w2];
      simpl in *; by rewrite ?save_summary_steps, Hs.
  - destruct (relative_to_Raise _ _ Hu) as [msg Hmsg]. unfold process_file.
    rewrite (bind_Raise _ _ _ _ _ (lift_Raise _ _ w Hmsg)). simpl.
    by rewrite app_nil_r.
Qed.

Lemma loop_turn_steps self idx total file_path w :
  summary_steps (trace (loop_turn self idx total file_path w).2)
  = summary_steps (trace w)
    ++ (if in_workspace self file_path then [file_path] else []).
Proof.
  rewrite <- process_file_steps with (idx := idx) (total := total).
  unfold loop_turn, try_except.
  by destruct (process_file _ _ _ _ w) as [[[]|[cls msg|code]] w1].
Qed.

Lemma summaries_loop_steps self idx total file_paths w :
  summary_steps (trace (summaries_loop self idx total file_paths w).2)
  = summary_steps (trace w) ++ List.filter (in_workspace self) file_paths.
Proof.
  revert idx w. induction file_paths as [|f rest IH]; intros idx w.
  - simpl. by rewrite app_nil_r.
  - rewrite summaries_loop_step, IH, loop_turn_steps. simpl.
    destruct (in_workspace self f); by rewrite <- app_assoc.
Qed.

Lemma generate_summaries_loop self file_paths w :
  can_mkdir (docs_path self) (fs w) = true ->
  exists m,
    generate_summaries self file_paths w
    = summaries_loop self 1 (length file_paths) file_paths
        (set_fs m (add_event (EvMkdir (docs_path self)) w)).
Proof.
  unfold can_mkdir, generate_summaries, mkdir_parents, bind, log_event. simpl.
  destruct (mkdir_parents_rev _ _ _) as [[[]|e] m]; [|done]. intros _. by exists m.
Qed.

Section Batch.

Variables (args : Args) (w : World) (key content : str).

Hypothesis Hkey : resolve_key args w = Some key.
Hypothesis Hvalid : truthy key = true.
Hypothesis Hlist :
  lookup_node (fs w) (parse_path (files args)) = Some (File content).
Hypothesis Hnonempty : file_list (universal_newlines content) <> [].
Hypothesis Hdocs :
  can_mkdir (docs_path (__init__ (workspace args) key)) (fs w) = true.

Lemma main_batch :
  main args w
  = (let file_paths := file_list (universal_newlines content) in
     let generator := __init__ (workspace args) key in
     generate_summaries generator file_paths ;;;
     print (success_line (length file_paths)) ;;;
     print (location_line (docs_path generator)))
      (add_event (EvOpenRead (files args)) w).
Proof using Hkey Hvalid Hlist Hnonempty.
  unfold main, resolve_key in *.
  assert (Hk : (if opt_truthy (api_key args) then ret (api_key args)
                else getenv_api_key) w = (Ok (Some key), w)).
  { destruct (opt_truthy (api_key args)); unfold ret, getenv_api_key; by rewrite Hkey. }
  rewrite (bind_Ok _ _ _ _ _ Hk). simpl. rewrite Hvalid. simpl.
  rewrite (bind_Ok _ _ w tt w) by done.
  assert (Hr : read_text (files args) w
               = (Ok (universal_newlines content),
                  add_event (EvOpenRead (files args)) w)).
  { unfold read_text, bind, log_event. simpl. by rewrite Hlist. }
  rewrite (bind_Ok _ _ _ _ _ Hr).
  destruct (file_list (universal_newlines content)) as [|f rest] eqn:E; [done|].
  by rewrite (bind_Ok _ _ _ tt (add_event (EvOpenRead (files args)) w)).
Qed.

Lemma main_loop :
  exists m,
    let file_paths := file_list (universal_newlines content) in
    let generator := __init__ (workspace args) key in
    let w1 := (summaries_loop generator 1 (length file_paths) file_paths
                 (set_fs m (add_event (EvMkdir (docs_path generator))
                                      (add_event (EvOpenRead (files args)) w)))).2 in
    main args w
    = (Ok tt, add_stdout (location_line (docs_path generator))
                (add_stdout (success_line (length file_paths)) w1)).
Proof using Hkey Hvalid Hlist Hnonempty Hdocs.
  rewrite main_batch. cbv zeta.
  destruct (generate_summaries_loop (__init__ (workspace args) key)
              (file_list (universal_newlines content))
              (add_event (EvOpenRead (files args)) w) Hdocs) as [m Hm].
  exists m. unfold bind at 1. rewrite Hm.
  pose proof (summaries_loop_returns (__init__ (workspace args) key) 1
                (length (file_list (universal_newlines content)))
                (file_list (universal_newlines content))
                (set_fs m (add_event (EvMkdir (docs_path (__init__ (workspace args) key)))
                                     (add_event (EvOpenRead (files args)) w)))) as Hret.
  destruct (summaries_loop _ _ _ _ _) as [r w1]. simpl in Hret. by subst r.
Qed.

(** C1, amended: with a key, a non-empty list and the output directory in
    place, the summary step is entered once for each listed file that lies
    under the workspace root, in the order of the list, and for no other
    file. *)
Theorem C1_summary_step_once_per_file_in_workspace :
  summary_steps (trace (main args w).2)
  = summary_steps (trace w)
    ++ List.filter (in_workspace (__init__ (workspace args) key))
                   (file_list (universal_newlines content)).
Proof using Hkey Hvalid Hlist Hnonempty Hdocs.
  destruct main_loop as [m ->]. cbv zeta.
  change (summary_steps (trace (summaries_loop (__init__ (workspace args) key) 1
            (length (file_list (universal_newlines content)))
            (file_list (universal_newlines content))
            (set_fs m (add_event (EvMkdir (docs_path (__init__ (workspace args) key)))
                                 (add_event (EvOpenRead (files args)) w)))).2)
          = summary_steps (trace w)
            ++ List.filter (in_workspace (__init__ (workspace args) key))
                 (file_list (universal_newlines content))).
  rewrite summaries_loop_steps. f_equal.
  change (trace (set_fs m ?x)) with (trace x).
  by rewrite !summary_steps_quiet.
Qed.

(** C8: once the batch is under way (a key, a non-empty list, the output
    directory in place) the process ends with status 0, whatever happened to
    the individual files. *)
Theorem C8_exit_0_on_completion :
  (run_main args w).1 = 0.
Proof using Hkey Hvalid Hlist Hnonempty Hdocs.
  unfold run_main. destruct main_loop as [m ->]. done.
Qed.

(** C10: the closing message on standard output, the line before the one
    that gives the output directory, reports a number of generated summaries,
    and that number is the length of the file list, whatever number of files
    failed. *)
Theorem C10_final_message_counts_all_files :
  exists out number,
    stdout (run_main args w).2
    = out ++ [[10; 8218; 250; 214] ++ u " Successfully generated "
                ++ number ++ u " summaries";
              location_line (docs_path (__init__ (workspace args) key))]
    /\ decimal_value number
       = N.of_nat (length (file_list (universal_newlines content))).
Proof using Hkey Hvalid Hlist Hnonempty Hdocs.
  unfold run_main. destruct main_loop as [m ->]. cbv zeta. simpl.
  eexists. exists (str_of_nat (length (file_list (universal_newlines content)))).
  split; [by rewrite <- app_assoc | apply str_of_nat_value].
Qed.

End Batch.

Lemma C1_witness :
  summary_steps
    (trace (main Demo.args
              (Demo.world (u "/ws/src/foo/bar.ts
/tmp/x.py
/ws/a.py
/ws/missing.py") [])).2)
  = [u "/ws/src/foo/bar.ts"; u "/ws/a.py"; u "/ws/missing.py"].
Proof.
  rewrite (C1_summary_step_once_per_file_in_workspace Demo.args _ (u "sk-test")
             (u "/ws/src/foo/bar.ts
/tmp/x.py
/ws/a.py
/ws/missing.py")); [| by vm_compute ..].
  by vm_compute.
Defined.

(** C1 as stated fails: a listed file outside the workspace root never
    reaches the summary step. *)
Lemma C1_counterexample :
  let w := Demo.world (u "/tmp/x.py") [] in
  resolve_key Demo.args w = Some (u "sk-test")
  /\ file_list (u "/tmp/x.py") = [u "/tmp/x.py"]
  /\ summary_steps (trace (main Demo.args w).2) = []
  /\ summary_steps (trace (main Demo.args w).2)
     <> summary_steps (trace w) ++ [u "/tmp/x.py"].
Proof. by vm_compute. Qed.

Lemma C8_witness :
  stderr (run_main Demo.args (Demo.world (u "/tmp/x.py
/ws/missing.py") [])).2
  = [error_line (u "/tmp/x.py")
       (Exn ValueError (u "'/tmp/x.py' is not in the subpath of '/ws'"));
     error_line (u "/ws/missing.py") (ENOENT (u "/ws/missing.py"))]
  /\ (run_main Demo.args (Demo.world (u "/tmp/x.py
/ws/missing.py") [])).1 = 0.
Proof.
  split; [by vm_compute|].
  apply (C8_exit_0_on_completion Demo.args _ (u "sk-test") (u "/tmp/x.py
/ws/missing.py")); by vm_compute.
Defined.

Lemma C10_witness :
  let w := Demo.world (u "/tmp/x.py
/ws/missing.py") [] in
  length (stderr (run_main Demo.args w).2) = 2%nat
  /\ exists out number,
       stdout (run_main Demo.args w).2
       = out ++ [[10; 8218; 250; 214] ++ u " Successfully generated "
                   ++ number ++ u " summaries";
                 location_line (parse_path (u "/ws/docs/codebase"))]
       /\ decimal_value number = 2.
Proof.
  intros w. split; [by vm_compute|].
  apply (C10_final_message_counts_all_files Demo.args w (u "sk-test") (u "/tmp/x.py
/ws/missing.py")); by vm_compute.
Defined.

(** ** The empty file list *)

Lemma file_list_blank content :
  (forall line, line ∈ readlines content -> strip line = []) ->
  file_list content = [].
Proof.
  unfold file_list. induction (readlines content) as [|l ls IH]; intros H; [done|].
  simpl. rewrite (H l) by apply list_elem_of_here. simpl.
  apply IH. intros line Hl. apply H. by apply list_elem_of_further.
Qed.

(** C5: when every line of the file list is blank, the process writes one
    error line and exits with status 1, and no request was sent to the
    remote API.  With a key the line is the one about the empty list; without
    one the process has stopped before, on the missing key. *)
Theorem C5_empty_file_list_exit_1 args w content :
  lookup_node (fs w) (parse_path (files args)) = Some (File content) ->
  (forall line, line ∈ readlines (universal_newlines content) -> strip line = []) ->
  (run_main args w).1 = 1
  /\ stderr (run_main args w).2
     = stderr w
       ++ [if opt_truthy (resolve_key args w)
           then u "ERROR: No files to process"
           else u "ERROR: API key required. Set ANTHROPIC_API_KEY or use --api-key"]
  /\ api_prompts (trace (run_main args w).2) = api_prompts (trace w).
Proof.
  intros Hlist Hblank. apply file_list_blank in Hblank.
  unfold run_main, main, resolve_key.
  assert (Hk : (if opt_truthy (api_key args) then ret (api_key args)
                else getenv_api_key) w
               = (Ok (if opt_truthy (api_key args) then api_key args
                      else environ_api_key w), w)).
  { by destruct (opt_truthy (api_key args)). }
  rewrite (bind_Ok _ _ _ _ _ Hk).
  destruct (opt_truthy (if opt_truthy (api_key args) then api_key args
                        else environ_api_key w)) eqn:Et; simpl.
  - rewrite (bind_Ok _ _ w tt w) by done.
    assert (Hr : read_text (files args) w
                 = (Ok (universal_newlines content),
                    add_event (EvOpenRead (files args)) w)).
    { unfold read_text, bind, log_event. simpl. by rewrite Hlist. }
    rewrite (bind_Ok _ _ _ _ _ Hr), Hblank. simpl.
    unfold api_prompts. rewrite omap_app. simpl. by rewrite app_nil_r.
  - done.
Qed.

Lemma C5_witness :
  let w := Demo.world [32; 10; 13; 10; 9; 10] [] in
  (run_main Demo.args w).1 = 1
  /\ stderr (run_main Demo.args w).2 = [u "ERROR: No files to process"].
Proof.
  intros w.
  destruct (C5_empty_file_list_exit_1 Demo.args w [32; 10; 13; 10; 9; 10])
    as (H1 & H2 & _).
  - by vm_compute.
  - intros line Hl. vm_compute in Hl.
    repeat (apply elem_of_cons in Hl as [->|Hl]; [by vm_compute|]).
    by apply elem_of_nil in Hl.
  - split; [done|]. rewrite H2. by vm_compute.
Defined.

(** ** Suffixes *)

Lemma rfind_app c a b :
  rfind c (a ++ b)
  = match rfind c b with
    | Some i => Some (length a + i)%nat
    | None => rfind c a
    end.
Proof.
  induction a as [|x a IH]; simpl.
  - by destruct (rfind c b).
  - rewrite IH. by destruct (rfind c b).
Qed.

Lemma is_ext_md : is_ext (u ".md").
Proof. exists (u "md"). by vm_compute. Qed.

Lemma is_ext_json : is_ext (u ".json").
Proof. exists (u "json"). by vm_compute. Qed.

Lemma suffix_index_ext st sfx :
  st <> [] -> is_ext sfx -> suffix_index (st ++ sfx) = Some (length st).
Proof.
  intros Hst (rest & -> & Hrest & Hnodot & _). unfold suffix_index.
  rewrite rfind_app. simpl. rewrite Hnodot. simpl. rewrite Nat.add_0_r.
  rewrite length_app. simpl.
  destruct st; [done|]. destruct rest; [done|]. simpl.
  replace (_ <? _)%nat with true; [done|].
  symmetry. apply Nat.ltb_lt. lia.
Qed.

Lemma stem_nonempty p : name p <> [] -> stem p <> [].
Proof.
  intros Hn. unfold stem, suffix_index.
  destruct (rfind dot (name p)) as [i|]; [|done].
  destruct (0 <? i)%nat eqn:E0; simpl; [|done].
  destruct (S i <? length (name p))%nat eqn:E1; [|done].
  apply Nat.ltb_lt in E0. destruct i; [lia|]. by destruct (name p).
Qed.

(** [nm] with what [suffix] finds cut off is [stem]. *)
Lemma name_minus_suffix p :
  (if str_eqb (suffix p) [] then name p
   else take (length (name p) - length (suffix p)) (name p)) = stem p.
Proof.
  unfold suffix, stem, suffix_index.
  destruct (rfind dot (name p)) as [i|] eqn:Er; [|done].
  destruct (0 <? i)%nat; simpl; [|done].
  destruct (S i <? length (name p))%nat eqn:E1; [|done].
  apply Nat.ltb_lt in E1.
  destruct (str_eqb _ _) eqn:E.
  - apply str_eqb_true in E. apply (f_equal length) in E.
    rewrite length_drop in E. simpl in E. lia.
  - rewrite length_drop. f_equal. lia.
Qed.

Lemma with_suffix_ext p sfx :
  is_ext sfx -> name p <> [] -> with_suffix p sfx = Ok (replace_ext p sfx).
Proof.
  intros Hext Hn. pose proof Hext as (rest & -> & Hrest & _ & Hsep).
  unfold with_suffix. rewrite Hsep.
  replace (startswith [dot] (dot :: rest)) with true by (by vm_compute).
  replace (str_eqb (dot :: rest) [dot]) with false
    by (symmetry; apply str_eqb_false; intros [= ->]; done).
  simpl. replace (str_eqb (name p) []) with false
    by (symmetry; by apply str_eqb_false).
  unfold replace_ext. do 3 f_equal.
  rewrite <- (name_minus_suffix p). by destruct (str_eqb (suffix p) []).
Qed.

Lemma with_suffix_inv_name p sfx q : with_suffix p sfx = Ok q -> name p <> [].
Proof.
  unfold with_suffix.
  destruct (contains_char sep sfx); [done|].
  destruct (_ || _); [done|].
  destruct (str_eqb (name p) []) eqn:E; [done|]. intros _. by apply str_eqb_false.
Qed.

Lemma name_snoc r pre x : name (mkPath r (pre ++ [x])) = x.
Proof. unfold name. simpl. apply List.last_last. Qed.

Lemma stem_ext r pre st sfx :
  st <> [] -> is_ext sfx -> stem (mkPath r (pre ++ [st ++ sfx])) = st.
Proof.
  intros Hst Hext. unfold stem. rewrite name_snoc, suffix_index_ext by done.
  by rewrite take_app_length.
Qed.

(** Replacing the extension a second time forgets the first one. *)
Lemma with_suffix_twice r pre st sfx sfx' :
  st <> [] -> is_ext sfx -> is_ext sfx' ->
  with_suffix (mkPath r (pre ++ [st ++ sfx])) sfx' = Ok (mkPath r (pre ++ [st ++ sfx'])).
Proof.
  intros Hst Hext Hext'. rewrite with_suffix_ext; [|done|].
  - unfold replace_ext. rewrite stem_ext by done. simpl.
    by rewrite List.removelast_last.
  - rewrite name_snoc. by destruct st.
Qed.

(** ** Where [save_summary] writes *)

Lemma lift_inv_Ok {A} (r : res A) w a w' :
  lift r w = (Ok a, w') -> r = Ok a /\ w' = w.
Proof. unfold lift. by intros [= -> ->]. Qed.

Lemma mkdir_parents_inv_Ok p w w' :
  mkdir_parents p w = (Ok tt, w') ->
  exists m, mkdir_parents_rev (root p) (rev (parts p)) (fs w) = (Ok tt, m)
            /\ w' = set_fs m (add_event (EvMkdir p) w).
Proof.
  unfold mkdir_parents, bind, log_event. simpl.
  destruct (mkdir_parents_rev _ _ _) as [[[]|e] m]; [|done].
  intros [= <-]. by exists m.
Qed.

Lemma write_text_inv_Ok p content w w' :
  write_text p content w = (Ok tt, w') ->
  lookup_node (fs w) (parent p) = Some Dir
  /\ w' = set_fs (<[p := File content]> (fs w)) (add_event (EvOpenWrite p) w).
Proof.
  unfold write_text, bind, log_event. simpl.
  destruct (lookup_node (fs w) p) as [[]|];
    destruct (lookup_node (fs w) (parent p)) as [[]|]; try done;
    by intros [= <-].
Qed.

Lemma now_inv_Ok w t w' :
  now_isoformat w = (Ok t, w') -> t = clock w (ticks w) /\ w' = tick w.
Proof. unfold now_isoformat. by intros [= <- <-]. Qed.

Lemma joinpath_replace_ext docs rel ext :
  root rel = [] -> joinpath docs (replace_ext rel ext) = out_path docs rel ext.
Proof. intros Hr. unfold joinpath, replace_ext, out_path. simpl. by rewrite Hr. Qed.

Lemma out_path_parts_snoc docs rel ext :
  parts (out_path docs rel ext)
  = (parts docs ++ removelast (parts rel)) ++ [stem rel ++ ext].
Proof. simpl. by rewrite app_assoc. Qed.

Lemma out_path_parent docs rel ext :
  parent (out_path docs rel ext)
  = mkPath (root docs) (parts docs ++ removelast (parts rel)).
Proof.
  unfold parent. rewrite out_path_parts_snoc, List.removelast_last. done.
Qed.

Lemma out_path_ne_parent docs rel ext ext' :
  out_path docs rel ext <> parent (out_path docs rel ext').
Proof.
  rewrite out_path_parent. intros H. apply (f_equal parts) in H.
  rewrite out_path_parts_snoc in H. simpl in H.
  apply (f_equal length) in H. rewrite length_app in H. simpl in H. lia.
Qed.

Lemma out_path_ext_inj docs rel ext ext' :
  out_path docs rel ext = out_path docs rel ext' -> ext = ext'.
Proof.
  intros H. apply (f_equal parts) in H. rewrite !out_path_parts_snoc in H.
  apply app_inj_tail in H as [_ H]. by apply app_inv_head in H.
Qed.

Lemma lookup_node_insert_ne m p q x :
  p <> q -> lookup_node (<[p := x]> m) q = lookup_node m q.
Proof.
  intros Hne. unfold lookup_node. destruct (parts q); [done|].
  by rewrite lookup_insert_ne.
Qed.

Lemma save_summary_writes self rel_path summary w w' :
  save_summary self rel_path summary w = (Ok tt, w') ->
  root rel_path = [] ->
  let md := out_path (docs_path self) rel_path (u ".md") in
  let js := out_path (docs_path self) rel_path (u ".json") in
  let metadata :=
    json_dump [(u "source_file", path_str rel_path);
               (u "summary_file", path_str (replace_ext rel_path (u ".md")));
               (u "generated_at", clock w (ticks w))] in
  exists m,
    mkdir_parents_rev (root (parent md)) (rev (parts (parent md))) (fs w)
    = (Ok tt, m)
    /\ lookup_node m (parent md) = Some Dir
    /\ fs w' = <[js := File metadata]> (<[md := File summary]> m).
Proof.
  intros Hsave Hrel md js metadata. unfold save_summary in Hsave.
  apply bind_inv_Ok in Hsave as (p1 & w1 & H1 & Hsave).
  apply lift_inv_Ok in H1 as [H1 ->].
  pose proof (with_suffix_inv_name _ _ _ H1) as Hname.
  rewrite (with_suffix_ext _ _ is_ext_md Hname) in H1. injection H1 as <-.
  rewrite (joinpath_replace_ext _ _ _ Hrel) in Hsave. fold md in Hsave.
  apply bind_inv_Ok in Hsave as ([] & w1 & H2 & Hsave).
  apply mkdir_parents_inv_Ok in H2 as (m & Hm & ->).
  apply bind_inv_Ok in Hsave as ([] & w2 & H3 & Hsave).
  apply write_text_inv_Ok in H3 as [Hpar ->].
  apply bind_inv_Ok in Hsave as (p2 & w3 & H4 & Hsave).
  apply lift_inv_Ok in H4 as [H4 ->].
  rewrite (with_suffix_ext _ _ is_ext_md Hname) in H4. injection H4 as <-.
  apply bind_inv_Ok in Hsave as (t & w4 & H5 & Hsave).
  apply now_inv_Ok in H5 as [-> ->].
  apply bind_inv_Ok in Hsave as (p3 & w5 & H6 & Hsave).
  apply lift_inv_Ok in H6 as [H6 ->].
  unfold md, out_path in H6. rewrite app_assoc in H6.
  rewrite (with_suffix_twice _ _ _ _ _ (stem_nonempty _ Hname) is_ext_md is_ext_json)
    in H6.
  rewrite <- app_assoc in H6. injection H6 as <-.
  apply write_text_inv_Ok in Hsave as [_ ->].
  exists m. by repeat split.
Qed.

(** After a successful [mkdir] the directory is there. *)
Lemma os_mkdir_Ok_is_dir p m m' :
  os_mkdir p m = (Ok tt, m') -> is_dir m' p = true.
Proof.
  unfold os_mkdir, is_dir.
  destruct (lookup_node m p) eqn:E; [done|].
  destruct (lookup_node m (parent p)) as [[]|]; try done.
  intros [= <-]. unfold lookup_node in *.
  destruct (parts p); [done|]. by rewrite lookup_insert_eq.
Qed.

Lemma mkdir_exist_ok_is_dir p m m' :
  mkdir_exist_ok p m = (Ok tt, m') -> is_dir m' p = true.
Proof.
  unfold mkdir_exist_ok.
  destruct (os_mkdir p m) as [[[]|e] m1] eqn:E.
  - intros [= <-]. by apply (os_mkdir_Ok_is_dir _ _ _ E).
  - destruct (is_FileNotFoundError e); [done|].
    destruct (is_dir m1 p) eqn:Ed; [by intros [= <-] | done].
Qed.

Lemma mkdir_parents_rev_is_dir r rparts m m' :
  mkdir_parents_rev r rparts m = (Ok tt, m') ->
  is_dir m' (mkPath r (rev rparts)) = true.
Proof.
  rewrite mkdir_parents_rev_eq. cbv zeta.
  destruct (os_mkdir _ m) as [[[]|e] m1] eqn:E.
  - intros [= <-]. by apply (os_mkdir_Ok_is_dir _ _ _ E).
  - destruct (is_FileNotFoundError e).
    + destruct rparts as [|x rparent]; [done|].
      destruct (mkdir_parents_rev r rparent m1) as [[[]|e1] m2]; [|done].
      apply mkdir_exist_ok_is_dir.
    + destruct (is_dir m1 _) eqn:Ed; [by intros [= <-] | done].
Qed.

Lemma mkdir_parents_creates p w w' :
  mkdir_parents p w = (Ok tt, w') -> is_dir (fs w') p = true.
Proof.
  unfold mkdir_parents, bind, log_event. simpl.
  destruct (mkdir_parents_rev _ _ _) as [[[]|e] m] eqn:E; [|done].
  intros [= <-]. simpl. apply mkdir_parents_rev_is_dir in E.
  rewrite rev_involutive in E. by destruct p.
Qed.

(** C3: when a file is processed to the end, the summary that the summary
    step returned is in the file [W/docs/codebase/F'], where [F] is the path
    of the file relative to the workspace root [W] and [F'] is [F] with its
    extension replaced by [.md]; the metadata are beside it under the same
    name with [.json]; and the directory of the two files exists. *)
Theorem C3_output_layout workspace key idx total file_path w w' :
  process_file (__init__ workspace key) idx total file_path w = (Ok tt, w') ->
  let W := parse_path workspace in
  let docs := joinpath (joinpath W (parse_path (u "docs"))) (parse_path (u "codebase")) in
  exists F summary generated_at w1 w2,
    relative_to (parse_path file_path) W = Ok F
    /\ generate_single_summary (__init__ workspace key) file_path w1 = (Ok summary, w2)
    /\ fs w' !! joinpath docs (replace_ext F (u ".md")) = Some (File summary)
    /\ fs w' !! joinpath docs (replace_ext F (u ".json"))
       = Some (File (json_dump
                       [(u "source_file", path_str F);
                        (u "summary_file", path_str (replace_ext F (u ".md")));
                        (u "generated_at", generated_at)]))
    /\ is_dir (fs w') (parent (joinpath docs (replace_ext F (u ".md")))) = true.
Proof.
  intros Hrun W docs. unfold process_file in Hrun.
  apply bind_inv_Ok in Hrun as (F & w0 & H1 & Hrun).
  apply lift_inv_Ok in H1 as [HF ->].
  apply bind_inv_Ok in Hrun as ([] & w1 & H2 & Hrun).
  apply bind_inv_Ok in Hrun as (summary & w2 & H3 & Hsave).
  pose proof (proj1 (relative_to_under _ _ _) HF) as (_ & Hroot & _).
  destruct (save_summary_writes _ _ _ _ _ Hsave Hroot) as (m & _ & Hdir & Hfs).
  exists F, summary, (clock w2 (ticks w2)), w1, w2.
  change (docs_path (__init__ workspace key)) with docs in *.
  rewrite !(joinpath_replace_ext _ _ _ Hroot).
  repeat split; try done.
  - rewrite Hfs, lookup_insert_ne, lookup_insert_eq; [done|].
    intros H. by apply out_path_ext_inj in H.
  - by rewrite Hfs, lookup_insert_eq.
  - unfold is_dir. rewrite Hfs, !lookup_node_insert_ne, Hdir; [done|..];
      apply out_path_ne_parent.
Qed.

(** The example of the specification: [src/foo/bar.ts] in the workspace
    [/ws] goes to [/ws/docs/codebase/src/foo/bar.md] and [bar.json]. *)
Lemma C3_witness :
  let w := Demo.world (u "/ws/src/foo/bar.ts") [] in
  exists w' summary meta,
    process_file (__init__ Demo.ws (u "sk-test")) 1 1 (u "/ws/src/foo/bar.ts") w
    = (Ok tt, w')
    /\ fs w' !! parse_path (u "/ws/docs/codebase/src/foo/bar.md")
       = Some (File summary)
    /\ fs w' !! parse_path (u "/ws/docs/codebase/src/foo/bar.json")
       = Some (File meta)
    /\ is_dir (fs w') (parse_path (u "/ws/docs/codebase/src/foo")) = true.
Proof.
  intros w.
  destruct (process_file (__init__ Demo.ws (u "sk-test")) 1 1 (u "/ws/src/foo/bar.ts") w)
    as [r w'] eqn:E.
  destruct r as [[]|e]; [|by vm_compute in E].
  destruct (C3_output_layout Demo.ws (u "sk-test") 1 1 (u "/ws/src/foo/bar.ts") w w' E)
    as (F & summary & t & w1 & w2 & HF & _ & Hmd & Hjs & Hdir).
  vm_compute in HF. injection HF as <-.
  exists w', summary. eexists. repeat split; [exact Hmd | exact Hjs | exact Hdir].
Defined.

Example output_path_example :
  let W := parse_path (u ".") in
  let docs := joinpath (joinpath W (parse_path (u "docs"))) (parse_path (u "codebase")) in
  relative_to (parse_path (u "src/foo/bar.ts")) W = Ok (parse_path (u "src/foo/bar.ts"))
  /\ path_str (joinpath docs (replace_ext (parse_path (u "src/foo/bar.ts")) (u ".md")))
     = u "docs/codebase/src/foo/bar.md"
  /\ path_str (joinpath docs (replace_ext (parse_path (u "src/foo/bar.ts")) (u ".json")))
     = u "docs/codebase/src/foo/bar.json".
Proof. by vm_compute. Qed.

(** ** What a failed file leaves behind *)

Lemma process_file_split self idx total file_path w :
  process_file self idx total file_path w
  = (x <- before_save self idx total file_path ;; save_summary self x.1 x.2) w.
Proof.
  unfold process_file, before_save, bind, lift, ret.
  destruct (relative_to _ _) as [rel|e]; [|done].
  destruct (print _ w) as [[[]|e] w0]; [|done].
  by destruct (generate_single_summary self file_path w0) as [[summary|e] w1].
Qed.

Lemma before_save_fs self idx total file_path w :
  fs (before_save self idx total file_path w).2 = fs w.
Proof.
  unfold before_save, bind, lift, ret, print.
  destruct (relative_to _ _) as [rel|e]; [|done].
  match goal with
  | |- context [generate_single_summary self file_path ?w0] =>
      pose proof (generate_single_summary_fs self file_path w0) as H;
      destruct (generate_single_summary self file_path w0) as [[summary|e] w1]
  end; done.
Qed.

Lemma with_suffix_md_no_name p e :
  with_suffix p (u ".md") = Raise e -> name p = [].
Proof.
  intros H. destruct (decide (name p = [])) as [Hn|Hn]; [done|].
  by rewrite (with_suffix_ext _ _ is_ext_md Hn) in H.
Qed.

Lemma mkdir_parents_run p w :
  mkdir_parents p w
  = ((mkdir_parents_rev (root p) (rev (parts p)) (fs w)).1,
     set_fs (mkdir_parents_rev (root p) (rev (parts p)) (fs w)).2
       (add_event (EvMkdir p) w)).
Proof.
  unfold mkdir_parents, bind, log_event. cbn [fs add_event].
  by destruct (mkdir_parents_rev _ _ _).
Qed.

Lemma write_text_is_dir p content w :
  lookup_node (fs w) p = Some Dir ->
  write_text p content w
  = (Raise (EISDIR (path_str p)), add_event (EvOpenWrite p) w).
Proof.
  intros H. unfold write_text, bind, log_event. cbn [fs add_event].
  by rewrite H.
Qed.

Lemma write_text_run p content w :
  lookup_node (fs w) p <> Some Dir ->
  lookup_node (fs w) (parent p) = Some Dir ->
  write_text p content w
  = (Ok tt, set_fs (<[p := File content]> (fs w)) (add_event (EvOpenWrite p) w)).
Proof.
  intros Hp Hpar. unfold write_text, bind, log_event. cbn [fs add_event].
  rewrite Hpar. by destruct (lookup_node (fs w) p) as [[]|].
Qed.

(** Where [save_summary] stops when it raises, and what it leaves. *)
Lemma save_summary_raise_fs self rel_path summary w e :
  root rel_path = [] ->
  (save_summary self rel_path summary w).1 = Raise e ->
  let md := out_path (docs_path self) rel_path (u ".md") in
  let js := out_path (docs_path self) rel_path (u ".json") in
  let dirs := (mkdir_parents_rev (root (parent md)) (rev (parts (parent md)))
                 (fs w)).2 in
  let m' := fs (save_summary self rel_path summary w).2 in
  (name rel_path = [] /\ m' = fs w)
  \/ (name rel_path <> [] /\ can_mkdir (parent md) (fs w) = false /\ m' = dirs)
  \/ (name rel_path <> [] /\ can_mkdir (parent md) (fs w) = true
      /\ lookup_node dirs md = Some Dir /\ m' = dirs)
  \/ (name rel_path <> [] /\ can_mkdir (parent md) (fs w) = true
      /\ lookup_node dirs md <> Some Dir /\ lookup_node dirs js = Some Dir
      /\ m' = <[md := File summary]> dirs).
Proof.
  intros Hrel Hsave md js dirs m'. subst m'.
  unfold save_summary in Hsave |- *.
  destruct (with_suffix rel_path (u ".md")) as [p1|e1] eqn:H1.
  2:{ rewrite (bind_Raise _ _ w e1 w) by done. left.
      split; [by eapply with_suffix_md_no_name | done]. }
  pose proof (with_suffix_inv_name _ _ _ H1) as Hname.
  rewrite (with_suffix_ext _ _ is_ext_md Hname) in H1. injection H1 as <-.
  right. rewrite (bind_Ok _ _ w _ w) in Hsave |- * by done. cbv zeta in Hsave |- *.
  rewrite (joinpath_replace_ext _ _ _ Hrel) in Hsave |- *.
  fold md in Hsave |- *.
  unfold can_mkdir. fold dirs.
  pose proof (mkdir_parents_run (parent md) w) as E1. fold dirs in E1.
  destruct (mkdir_parents_rev (root (parent md)) (rev (parts (parent md))) (fs w))
    as [[[]|e1] m] eqn:Em; subst dirs; cbn [fst snd] in E1 |- *.
  2:{ rewrite (bind_Raise _ _ _ _ _ E1). left. by repeat split. }
  right. rewrite (bind_Ok _ _ _ _ _ E1) in Hsave |- *.
  pose proof (mkdir_parents_rev_is_dir _ _ _ _ Em) as Hdir.
  rewrite rev_involutive in Hdir.
  assert (Hpar : lookup_node m (parent md) = Some Dir).
  { unfold is_dir in Hdir. destruct (parent md) as [r ps]. simpl in *.
    by destruct (lookup_node m (mkPath r ps)) as [[]|]. }
  assert (Hmd : lookup_node m md = Some Dir \/ lookup_node m md <> Some Dir)
    by (destruct (lookup_node m md) as [[]|]; auto).
  destruct Hmd as [Hmd|Hmd].
  { rewrite (bind_Raise _ _ _ _ _ (write_text_is_dir md summary (set_fs m (add_event (EvMkdir (parent md)) w)) Hmd)).
    left. by repeat split. }
  right.
  rewrite (bind_Ok _ _ _ _ _ (write_text_run md summary (set_fs m (add_event (EvMkdir (parent md)) w)) Hmd Hpar)) in Hsave |- *.
  rewrite (bind_Ok _ _ _ _ _ (lift_Ok _ _ _ eq_refl)) in Hsave |- *.
  unfold bind at 1, now_isoformat at 1 in Hsave. cbv beta iota in Hsave.
  unfold bind at 1, now_isoformat at 1. cbv beta iota.
  assert (Hjs : with_suffix md (u ".json") = Ok js).
  { unfold md, js, out_path. rewrite !app_assoc.
    by rewrite (with_suffix_twice _ _ _ _ _ (stem_nonempty _ Hname)
                  is_ext_md is_ext_json). }
  rewrite (bind_Ok _ _ _ _ _ (lift_Ok _ _ _ Hjs)) in Hsave |- *.
  assert (Hne : md <> js) by (intros H; by apply out_path_ext_inj in H).
  match goal with
  | |- context [write_text js ?c ?w1] =>
      assert (Hpar' : lookup_node (fs w1) (parent js) = Some Dir);
      [ cbn [fs set_fs add_event tick];
        rewrite (lookup_node_insert_ne m md (parent js) _ (out_path_ne_parent _ _ _ _));
        unfold js; rewrite out_path_parent, <- (out_path_parent _ _ (u ".md"));
        exact Hpar
      | assert (Hjs' : lookup_node (fs w1) js = lookup_node m js);
        [ cbn [fs set_fs add_event tick]; by apply lookup_node_insert_ne |];
        assert (Hd : lookup_node m js = Some Dir \/ lookup_node m js <> Some Dir)
          by (destruct (lookup_node m js) as [[]|]; auto);
        destruct Hd as [Hd|Hd];
        [ rewrite <- Hjs' in Hd; rewrite (write_text_is_dir js c w1 Hd);
          rewrite Hjs' in Hd; by repeat split
        | rewrite <- Hjs' in Hd;
          by rewrite (write_text_run js c w1 Hd Hpar') in Hsave ] ]
  end.
Qed.

Lemma before_save_inv_Ok self idx total file_path w rel_path summary :
  (before_save self idx total file_path w).1 = Ok (rel_path, summary) ->
  relative_to (parse_path file_path) (workspace_path self) = Ok rel_path.
Proof.
  unfold before_save, bind, lift, ret, print.
  destruct (relative_to _ _) as [rel|e]; [|done].
  destruct (generate_single_summary _ _ _) as [[s|e] w1]; [|done].
  by intros [= -> _].
Qed.

(** C7, amended: when the processing of a file raises, the error line is on
    the error stream and the loop goes on.  When it raised before the save
    step (the path is not under the workspace root, the file cannot be read,
    the request fails or comes back empty), nothing was written for that
    file: the file system is as before.  When the save step itself raised,
    what it had already made stays, nothing is cleaned up: it raised at the
    naming of the summary file (nothing was made), at the making of the
    directory (the directories made so far stay), at the writing of the
    summary (the directories stay), or at the writing of the metadata (the
    directories and the summary file stay). *)
Theorem C7_what_a_failed_file_leaves self idx total file_path w e :
  (process_file self idx total file_path w).1 = Raise e ->
  exists w1,
    loop_turn self idx total file_path w = (Ok tt, w1)
    /\ stderr w1 = stderr w ++ [error_line file_path e]
    /\ (forall e', (before_save self idx total file_path w).1 = Raise e' ->
                   fs w1 = fs w)
    /\ (forall rel_path summary,
          (before_save self idx total file_path w).1 = Ok (rel_path, summary) ->
          let md := out_path (docs_path self) rel_path (u ".md") in
          let js := out_path (docs_path self) rel_path (u ".json") in
          let dirs := (mkdir_parents_rev (root (parent md))
                         (rev (parts (parent md))) (fs w)).2 in
          (name rel_path = [] /\ fs w1 = fs w)
          \/ (name rel_path <> [] /\ can_mkdir (parent md) (fs w) = false
              /\ fs w1 = dirs)
          \/ (name rel_path <> [] /\ can_mkdir (parent md) (fs w) = true
              /\ lookup_node dirs md = Some Dir /\ fs w1 = dirs)
          \/ (name rel_path <> [] /\ can_mkdir (parent md) (fs w) = true
              /\ lookup_node dirs md <> Some Dir
              /\ lookup_node dirs js = Some Dir
              /\ fs w1 = <[md := File summary]> dirs)).
Proof.
  intros Hfail.
  pose proof (catchable_process_file self idx total file_path w _ Hfail) as Hexc.
  destruct e as [cls msg|code]; [|done]. clear Hexc.
  pose proof (process_file_stderr self idx total file_path w) as Herr.
  pose proof (before_save_fs self idx total file_path w) as Hfs.
  destruct (process_file self idx total file_path w) as [r w'] eqn:Ep.
  simpl in Hfail, Herr. subst r.
  exists (add_stderr (error_line file_path (Exn cls msg)) w').
  split; [by apply loop_turn_Raise|]. split; [simpl; by rewrite Herr|].
  rewrite process_file_split in Ep. cbn [fs add_stderr].
  split.
  - intros e' Hb. destruct (before_save self idx total file_path w) as [rb w0] eqn:Eb.
    simpl in Hb, Hfs. subst rb. rewrite (bind_Raise _ _ _ _ _ Eb) in Ep.
    injection Ep as _ <-. done.
  - intros rel_path summary Hb.
    pose proof (before_save_inv_Ok _ _ _ _ _ _ _ Hb) as Hrel.
    apply relative_to_under in Hrel as (_ & Hroot & _).
    destruct (before_save self idx total file_path w) as [rb w0] eqn:Eb.
    simpl in Hb, Hfs. subst rb. rewrite (bind_Ok _ _ _ _ _ Eb) in Ep.
    cbn [fst snd] in Ep.
    pose proof (save_summary_raise_fs self rel_path summary w0 (Exn cls msg) Hroot)
      as H.
    rewrite Ep, Hfs in H. by apply H.
Qed.

Lemma C7_witness :
  let w := Demo.world (u "/ws/a.py")
             [(parse_path (u "/ws/docs"), Dir);
              (parse_path (u "/ws/docs/codebase"), Dir);
              (parse_path (u "/ws/docs/codebase/a.json"), Dir)] in
  exists w1,
    loop_turn (__init__ Demo.ws (u "sk-test")) 1 1 (u "/ws/a.py") w = (Ok tt, w1)
    /\ stderr w1
       = [error_line (u "/ws/a.py") (EISDIR (u "/ws/docs/codebase/a.json"))]
    /\ fs w1 !! parse_path (u "/ws/docs/codebase/a.md")
       = Some (File (u "# summary 0")).
Proof.
  intros w.
  destruct (C7_what_a_failed_file_leaves (__init__ Demo.ws (u "sk-test")) 1 1
              (u "/ws/a.py") w (EISDIR (u "/ws/docs/codebase/a.json")))
    as (w1 & H1 & H2 & _ & H4).
  - by vm_compute.
  - exists w1. split; [exact H1|]. split; [exact H2|].
    destruct (H4 (parse_path (u "a.py")) (u "# summary 0"))
      as [[Hn _]|[(_ & Hc & _)|[(_ & _ & Hd & _)|(_ & _ & _ & _ & ->)]]].
    + by vm_compute.
    + by vm_compute in Hn.
    + by vm_compute in Hc.
    + by vm_compute in Hd.
    + by vm_compute.
Defined.

(** C7 as stated fails: the summary is written before the metadata, and
    when the metadata cannot be written (here a directory is in the way)
    the error is caught and logged while the summary file stays. *)
Lemma C7_counterexample :
  let w := Demo.world (u "/ws/a.py")
             [(parse_path (u "/ws/docs"), Dir);
              (parse_path (u "/ws/docs/codebase"), Dir);
              (parse_path (u "/ws/docs/codebase/a.json"), Dir)] in
  let self := __init__ Demo.ws (u "sk-test") in
  (process_file self 1 1 (u "/ws/a.py") w).1
  = Raise (EISDIR (u "/ws/docs/codebase/a.json"))
  /\ stderr (loop_turn self 1 1 (u "/ws/a.py") w).2
     = [error_line (u "/ws/a.py") (EISDIR (u "/ws/docs/codebase/a.json"))]
  /\ fs w !! parse_path (u "/ws/docs/codebase/a.md") = None
  /\ fs (loop_turn self 1 1 (u "/ws/a.py") w).2
       !! parse_path (u "/ws/docs/codebase/a.md")
     = Some (File (u "# summary 0")).
Proof. by vm_compute. Qed.

(** ** The prompt *)

Lemma startswith_spec p s :
  startswith p s = true <-> exists post, s = p ++ post.
Proof.
  revert s. induction p as [|a p IH]; intros s; simpl.
  - split; [by exists s | done].
  - destruct s as [|b s]; [split; [done | by intros [? ?]]|].
    rewrite andb_true_iff, N.eqb_eq, IH. split.
    + intros [-> [post ->]]. by exists post.
    + intros [post [= -> ->]]. split; [done | by exists post].
Qed.

Lemma occursb_spec pat s : occursb pat s = true <-> occurs pat s.
Proof.
  induction s as [|x s IH]; simpl.
  - rewrite orb_false_r, startswith_spec. split.
    + intros [post H]. by exists [], post.
    + intros (pre & post & H). symmetry in H.
      apply app_eq_nil in H as [-> H]. by exists post.
  - rewrite orb_true_iff, startswith_spec, IH. split.
    + intros [[post H]|(pre & post & H)].
      * by exists [], post.
      * exists (x :: pre), post. by rewrite H.
    + intros (pre & post & H). destruct pre as [|y pre].
      * left. by exists post.
      * right. simpl in H. injection H as _ ->. by exists pre, post.
Qed.

Lemma not_occurs pat s : occursb pat s = false -> ~ occurs pat s.
Proof. intros H Ho. apply occursb_spec in Ho. congruence. Qed.

Lemma occurs_inside pat pre s post : occurs pat s -> occurs pat (pre ++ s ++ post).
Proof.
  intros (a & b & ->). exists (pre ++ a), (b ++ post).
  by rewrite <- !app_assoc.
Qed.

Lemma occurs_prefix pat s post : occurs pat s -> occurs pat (s ++ post).
Proof. apply (occurs_inside pat [] s post). Qed.

Lemma occurs_suffix pat pre s : occurs pat s -> occurs pat (pre ++ s).
Proof. intros H. apply (occurs_inside pat pre s []) in H. by rewrite app_nil_r in H. Qed.

(** A character that the pattern does not have separates the occurrences. *)
Lemma occurs_split pat d a b :
  d ∉ pat -> occurs pat (a ++ d :: b) -> occurs pat a \/ occurs pat b.
Proof.
  intros Hd (pre & post & H).
  apply app_eq_inv in H as [(k & -> & H)|(k & -> & H)].
  - left. apply app_eq_inv in H as [(k' & -> & H)|(k' & -> & H)].
    + destruct k' as [|x k'].
      * exists pre, []. by rewrite !app_nil_r.
      * injection H as <- _. destruct Hd. apply elem_of_app. right. by left.
    + by exists pre, k'.
  - destruct k as [|x k].
    + simpl in H. destruct pat as [|y pat].
      * left. exists a, []. by rewrite app_nil_r.
      * injection H as -> _. destruct Hd. by left.
    + right. injection H as _ ->. by exists k, post.
Qed.

(** *** The stem of a path occurs in the string the path was read from *)

Lemma occurs_trans pat x s : occurs x s -> occurs pat x -> occurs pat s.
Proof. intros (pre & post & ->). apply occurs_inside. Qed.

Lemma split_head c s h t : split c s = h :: t -> exists post, s = h ++ post.
Proof.
  revert h t. induction s as [|y s IH]; intros h t; simpl.
  - intros [= <- <-]. by exists [].
  - destruct (y =? c); [intros [= <- <-]; by exists (y :: s)|].
    destruct (split c s) as [|h' t'].
    + intros [= <- <-]. by exists s.
    + intros [= <- <-]. destruct (IH h' t' eq_refl) as [post ->]. by exists post.
Qed.

Lemma split_occurs c s x : x ∈ split c s -> occurs x s.
Proof.
  revert x. induction s as [|y s IH]; intros x; simpl.
  - intros ->%list_elem_of_singleton. by exists [], [].
  - destruct (y =? c).
    + intros [->|H]%elem_of_cons.
      * by exists [], (y :: s).
      * destruct (IH x H) as (pre & post & ->). by exists (y :: pre), post.
    + destruct (split c s) as [|h t] eqn:E.
      * intros ->%list_elem_of_singleton. by exists [], s.
      * intros [->|H]%elem_of_cons.
        -- destruct (split_head _ _ _ _ E) as [post ->]. by exists [], post.
        -- destruct (IH x) as (pre & post & ->); [by right|].
           by exists (y :: pre), post.
Qed.

Lemma lstrip_char_suffix c s : exists pre, s = pre ++ lstrip_char c s.
Proof.
  induction s as [|x s [pre IH]]; simpl; [by exists []|].
  destruct (x =? c); [|by exists []].
  exists (x :: pre). simpl. by rewrite <- IH.
Qed.

Lemma splitroot_suffix s : exists pre, s = pre ++ (splitroot s).2.
Proof.
  unfold splitroot. destruct s as [|c s]; [by exists []|].
  destruct (c =? sep); [|by exists []].
  destruct (_ =? _)%nat; apply lstrip_char_suffix.
Qed.

Lemma name_occurs s : occurs (name (parse_path s)) s.
Proof.
  unfold parse_path. destruct (splitroot_suffix s) as [pre Hs].
  destruct (splitroot s) as [r rel]. simpl in *. unfold name. simpl.
  destruct (List.filter keep_part (split sep rel)) as [|x l] eqn:E.
  - exists [], s. done.
  - assert (Hin : List.last (x :: l) [] ∈ split sep rel).
    { apply list_elem_of_In.
      apply (proj1 (List.filter_In keep_part _ _)).
      rewrite E. apply list_elem_of_In.
      rewrite (app_removelast_last [] (l := x :: l)) at 2 by done.
      apply elem_of_app. right. by left. }
    destruct (split_occurs _ _ _ Hin) as (a & b & Hrel).
    exists (pre ++ a), b. rewrite Hs at 1. rewrite Hrel. by rewrite <- app_assoc.
Qed.

Lemma stem_occurs s : occurs (stem (parse_path s)) s.
Proof.
  destruct (name_occurs s) as (pre & post & Hs). unfold stem.
  destruct (suffix_index _) as [i|]; [|by exists pre, post].
  exists pre, (drop i (name (parse_path s)) ++ post).
  rewrite Hs at 1. by rewrite (app_assoc (take i _)), take_drop.
Qed.

(** *** A pattern between the pieces of a template

    [L] is a literal piece that does not hold the pattern and ends with a
    character the pattern does not have; [L'] starts with such a character.
    Then an occurrence of the pattern in [L ++ V ++ L' ++ R] is inside [V] or
    inside [L' ++ R]. *)

Lemma contains_char_false d s : contains_char d s = false -> d ∉ s.
Proof.
  unfold contains_char. intros H Hin.
  apply not_true_iff_false in H. apply H.
  apply existsb_exists. exists d. split; [by apply list_elem_of_In | apply N.eqb_refl].
Qed.

Lemma occurs_step pat L V L' R :
  ends_clean pat L = true -> starts_clean pat L' = true ->
  occurs pat (L ++ V ++ L' ++ R) -> occurs pat V \/ occurs pat (L' ++ R).
Proof.
  unfold ends_clean, starts_clean. intros HL HL' Ho.
  apply andb_true_iff in HL as [Hno Hd]. apply negb_true_iff in Hno.
  destruct (rev L) as [|d rL] eqn:Er; [done|]. apply negb_true_iff in Hd.
  apply (f_equal (@rev N)) in Er. rewrite rev_involutive in Er. simpl in Er.
  subst L. rewrite <- app_assoc in Ho. simpl in Ho.
  apply occurs_split in Ho as [Ho|Ho]; [| |by apply contains_char_false].
  - destruct (not_occurs _ _ Hno). by apply occurs_prefix.
  - destruct L' as [|d' L']; [done|]. apply negb_true_iff in HL'.
    simpl in Ho. apply occurs_split in Ho as [Ho|Ho];
      [by left | | by apply contains_char_false].
    right. by apply (occurs_suffix pat [d']).
Qed.

(** C4: around the source text the prompt is the same whatever the text is.
    A text of more than 8000 characters appears as its first 8000 characters,
    two spaces and the marker; a text of at most 8000 characters appears
    whole, followed by the two spaces and no marker, so that the prompt holds
    the marker nowhere unless the path, the extension or the text itself
    does. *)
Theorem C4_prompt_truncation rel_path file_ext :
  exists head,
    forall content,
      (8000 < N.of_nat (length content) ->
       length (take (N.to_nat 8000) content) = N.to_nat 8000
       /\ build_analysis_prompt rel_path file_ext content
          = head ++ take (N.to_nat 8000) content
              ++ u "  " ++ u "...[truncated]" ++ prompt_tail)
      /\ (N.of_nat (length content) <= 8000 ->
          build_analysis_prompt rel_path file_ext content
          = head ++ content ++ u "  " ++ prompt_tail
          /\ (~ occurs marker rel_path -> ~ occurs marker file_ext ->
              ~ occurs marker content ->
              ~ occurs marker (build_analysis_prompt rel_path file_ext content))).
Proof.
  eexists. intros content. split.
  - intros Hlong. split; [rewrite length_take; lia|].
    unfold build_analysis_prompt.
    replace (budget <? length content)%nat with true
      by (symmetry; apply Nat.ltb_lt; unfold budget; lia).
    rewrite !app_assoc. reflexivity.
  - intros Hshort.
    assert (Hlt : (budget <? length content)%nat = false)
      by (apply Nat.ltb_ge; unfold budget; lia).
    assert (Htake : take budget content = content)
      by (apply take_ge; unfold budget; lia).
    split.
    + unfold build_analysis_prompt. rewrite Hlt, Htake.
      change ([] ++ prompt_tail) with prompt_tail.
      rewrite !app_assoc. reflexivity.
    + intros Hrel Hext Hcontent Ho. unfold build_analysis_prompt in Ho.
      rewrite Hlt, Htake in Ho.
      apply occurs_step in Ho as [Ho|Ho]; [done | | by vm_compute ..].
      apply occurs_step in Ho as [Ho|Ho]; [| | by vm_compute ..].
      { apply Hrel. eapply occurs_trans; [apply stem_occurs | done]. }
      apply occurs_step in Ho as [Ho|Ho]; [done | | by vm_compute ..].
      apply occurs_step in Ho as [Ho|Ho]; [done | | by vm_compute ..].
      apply occurs_step in Ho as [Ho|Ho]; [done | | by vm_compute ..].
      apply occurs_step in Ho as [Ho|Ho]; [| | by vm_compute ..].
      { destruct (truthy file_ext).
        - apply Hext. rewrite <- (take_drop 1 file_ext). by apply occurs_suffix.
        - revert Ho. apply not_occurs. by vm_compute. }
      apply occurs_step in Ho as [Ho|Ho]; [done | | by vm_compute ..].
      revert Ho. apply not_occurs. by vm_compute.
Qed.

Lemma C4_witness :
  exists head,
    build_analysis_prompt (u "a.py") (u ".py") (u "print(1)")
    = head ++ u "print(1)" ++ u "  " ++ prompt_tail
    /\ ~ occurs marker (build_analysis_prompt (u "a.py") (u ".py") (u "print(1)"))
    /\ build_analysis_prompt (u "a.py") (u ".py") (replicate (N.to_nat 8001) 97)
       = head ++ take (N.to_nat 8000) (replicate (N.to_nat 8001) 97)
           ++ u "  " ++ u "...[truncated]" ++ prompt_tail.
Proof.
  destruct (C4_prompt_truncation (u "a.py") (u ".py")) as [head H].
  exists head. split; [|split].
  - apply (H (u "print(1)")). by vm_compute.
  - apply (H (u "print(1)")); [by vm_compute | apply not_occurs; by vm_compute ..].
  - apply (H (replicate (N.to_nat 8001) 97)). by vm_compute.
Defined.

(** * Further properties *)

(** ** The ways through main *)

Lemma main_cases args w :
  main args w
  = if negb (opt_truthy (resolve_key args w)) then
      (Raise (SystemExit 1), add_stderr key_error w)
    else
      let w1 := add_event (EvOpenRead (files args)) w in
      match lookup_node (fs w) (parse_path (files args)) with
      | Some (File content) =>
          match file_list (universal_newlines content) with
          | [] => (Raise (SystemExit 1),
                   add_stderr (u "ERROR: No files to process") w1)
          | file_paths =>
              let generator :=
                __init__ (workspace args) (default [] (resolve_key args w)) in
              (generate_summaries generator file_paths ;;;
               print (success_line (length file_paths)) ;;;
               print (location_line (docs_path generator))) w1
          end
      | Some Dir => (Raise (EISDIR (files args)), w1)
      | None => (Raise (ENOENT (files args)), w1)
      end.
Proof.
  unfold main, resolve_key.
  assert (Hk : (if opt_truthy (api_key args) then ret (api_key args)
                else getenv_api_key) w
               = (Ok (if opt_truthy (api_key args) then api_key args
                      else environ_api_key w), w))
    by (by destruct (opt_truthy (api_key args))).
  rewrite (bind_Ok _ _ _ _ _ Hk).
  destruct (opt_truthy (if opt_truthy (api_key args) then api_key args
                        else environ_api_key w)); simpl; [|done].
  rewrite (bind_Ok _ _ w tt w) by done.
  unfold read_text at 1. unfold bind at 1. unfold log_event at 1. unfold bind at 1.
  cbn [fs add_event].
  destruct (lookup_node (fs w) (parse_path (files args))) as [[content|]|]; try done.
  destruct (file_list (universal_newlines content)) as [|f rest]; [done|].
  by rewrite (bind_Ok _ _ _ tt (add_event (EvOpenRead (files args)) w)).
Qed.

(** X1: an empty key counts as no key: when neither the command line nor
    the environment gives a non-empty key, present or not, the process
    writes the error line and exits with status 1, and did nothing else. *)
Theorem X1_empty_key_is_no_key args w :
  opt_truthy (api_key args) = false ->
  opt_truthy (environ_api_key w) = false ->
  run_main args w = (1, add_stderr key_error w).
Proof.
  intros Ha He. unfold run_main. rewrite main_cases. unfold resolve_key.
  by rewrite Ha, He.
Qed.

Lemma X1_witness :
  run_main (mkArgs Demo.ws Demo.list_path (Some []))
           (Demo2.with_env (Some []) (Demo.world (u "/ws/a.py") []))
  = (1, add_stderr key_error
          (Demo2.with_env (Some []) (Demo.world (u "/ws/a.py") []))).
Proof.
  apply (X1_empty_key_is_no_key (mkArgs Demo.ws Demo.list_path (Some []))
           (Demo2.with_env (Some []) (Demo.world (u "/ws/a.py") [])));
    reflexivity.
Defined.

(** X2: with a key, when the file list cannot be read (no such file, or a
    directory), the exception of [open] reaches the top level: the process
    exits with status 1, and the program itself has printed nothing and
    sent no request. *)
Theorem X2_unreadable_file_list args w :
  opt_truthy (resolve_key args w) = true ->
  (forall content,
     lookup_node (fs w) (parse_path (files args)) <> Some (File content)) ->
  (run_main args w).1 = 1
  /\ (exists cls msg, (main args w).1 = Raise (Exn cls msg))
  /\ (run_main args w).2 = add_event (EvOpenRead (files args)) w.
Proof.
  intros Hk Hno. unfold run_main. rewrite main_cases, Hk. simpl.
  destruct (lookup_node (fs w) (parse_path (files args))) as [[content|]|].
  - by destruct (Hno content).
  - repeat split; eauto.
  - repeat split; eauto.
Qed.

Lemma X2_witness :
  run_main (mkArgs Demo.ws (u "/tmp/nothing.txt") (Some (u "sk-test")))
           (Demo.world (u "/ws/a.py") [])
  = (1, add_event (EvOpenRead (u "/tmp/nothing.txt")) (Demo.world (u "/ws/a.py") [])).
Proof.
  destruct (X2_unreadable_file_list
              (mkArgs Demo.ws (u "/tmp/nothing.txt") (Some (u "sk-test")))
              (Demo.world (u "/ws/a.py") [])) as (H1 & _ & H2).
  - reflexivity.
  - intros content. by vm_compute.
  - by apply injective_projections.
Defined.

(** ** The output directory *)



Lemma generate_summaries_blocked self file_paths w :
  can_mkdir (docs_path self) (fs w) = false ->
  exists cls msg m,
    generate_summaries self file_paths w
    = (Raise (Exn cls msg), set_fs m (add_event (EvMkdir (docs_path self)) w)).
Proof.
  unfold can_mkdir, generate_summaries, mkdir_parents, bind, log_event. simpl.
  pose proof (mkdir_parents_rev_raises (root (docs_path self))
                (rev (parts (docs_path self))) (fs w)) as H.
  destruct (mkdir_parents_rev _ _ _) as [[[]|e] m]; [done|]. intros _.
  specialize (H e eq_refl). destruct e as [cls msg|]; [|done].
  by exists cls, msg, m.
Qed.

(** X3: with a key and a non-empty list, when the directory [docs/codebase]
    neither exists nor can be made, the exception of [mkdir] is outside every
    [try]: the process exits with status 1, no file of the list was looked
    at, no request was sent, and the program printed nothing on either
    stream. *)
Theorem X3_output_directory_blocked args w key content :
  resolve_key args w = Some key ->
  truthy key = true ->
  lookup_node (fs w) (parse_path (files args)) = Some (File content) ->
  file_list (universal_newlines content) <> [] ->
  can_mkdir (docs_path (__init__ (workspace args) key)) (fs w) = false ->
  (run_main args w).1 = 1
  /\ summary_steps (trace (run_main args w).2) = summary_steps (trace w)
  /\ api_prompts (trace (run_main args w).2) = api_prompts (trace w)
  /\ stdout (run_main args w).2 = stdout w
  /\ stderr (run_main args w).2 = stderr w.
Proof.
  intros Hkey Hvalid Hlist Hne Hdocs. unfold run_main.
  rewrite (main_batch args w key content Hkey Hvalid Hlist Hne). cbv zeta.
  destruct (generate_summaries_blocked (__init__ (workspace args) key)
              (file_list (universal_newlines content))
              (add_event (EvOpenRead (files args)) w) Hdocs)
    as (cls & msg & m & Hg).
  rewrite (bind_Raise _ _ _ _ _ Hg). simpl.
  unfold summary_steps, api_prompts. rewrite !omap_app. simpl.
  by rewrite !app_nil_r.
Qed.

Lemma X3_witness :
  let w := Demo.world (u "/ws/a.py") [(parse_path (u "/ws/docs"), File (u "notes"))] in
  (run_main Demo.args w).1 = 1 /\ stderr (run_main Demo.args w).2 = [].
Proof.
  intros w.
  destruct (X3_output_directory_blocked Demo.args w (u "sk-test") (u "/ws/a.py"))
    as (H1 & _ & _ & _ & H2); [by vm_compute .. |].
  by rewrite H1, H2.
Defined.

Lemma mkdir_parents_rev_exists p m :
  is_dir m p = true ->
  mkdir_parents_rev (root p) (rev (parts p)) m = (Ok tt, m).
Proof.
  intros Hd. rewrite mkdir_parents_rev_eq, rev_involutive. cbv zeta.
  replace (mkPath (root p) (parts p)) with p by (by destruct p).
  unfold os_mkdir. unfold is_dir in Hd.
  destruct (lookup_node m p) as [[]|] eqn:E; try done.
  simpl. unfold is_dir. by rewrite E.
Qed.

(** X4: a run over a tree that already has its [docs/codebase] directory
    starts the loop at once: [mkdir] with [exist_ok] leaves the file system
    as it is. *)
Theorem X4_existing_output_directory self file_paths w :
  is_dir (fs w) (docs_path self) = true ->
  generate_summaries self file_paths w
  = summaries_loop self 1 (length file_paths) file_paths
      (add_event (EvMkdir (docs_path self)) w).
Proof.
  intros Hd. unfold generate_summaries, mkdir_parents, bind, log_event. simpl.
  by rewrite (mkdir_parents_rev_exists _ _ Hd).
Qed.

Lemma X4_witness :
  let w := Demo.world (u "/ws/a.py")
             [(parse_path (u "/ws/docs"), Dir);
              (parse_path (u "/ws/docs/codebase"), Dir)] in
  fs (generate_summaries (__init__ Demo.ws (u "sk-test")) [] w).2 = fs w.
Proof.
  intros w.
  by rewrite (X4_existing_output_directory (__init__ Demo.ws (u "sk-test")) [] w
                eq_refl).
Defined.


(** ** Relations between the world before and the world after *)

Section Respects.

Variable R : World -> World -> Prop.
Variable ok_event : event -> Prop.
Variable ok_fs : gmap Path node -> gmap Path node -> Prop.

Hypothesis R_refl : forall w, R w w.
Hypothesis R_trans : forall w1 w2 w3, R w1 w2 -> R w2 w3 -> R w1 w3.
Hypothesis R_event : forall e w, ok_event e -> R w (add_event e w).
Hypothesis R_stdout : forall s w, R w (add_stdout s w).
Hypothesis R_stderr : forall s w, R w (add_stderr s w).
Hypothesis R_tick : forall w, R w (tick w).
Hypothesis R_fs : forall m w, ok_fs (fs w) m -> R w (set_fs m w).

Lemma respects_ret {A} (a : A) : respects R (ret a).
Proof using R_refl. intros w. apply R_refl. Qed.

Lemma respects_raise {A} e : respects R (@raise A e).
Proof using R_refl. intros w. apply R_refl. Qed.

Lemma respects_lift {A} (r : res A) : respects R (lift r).
Proof using R_refl. intros w. apply R_refl. Qed.

Lemma respects_bind {A B} (c : M A) (k : A -> M B) :
  respects R c -> (forall a, respects R (k a)) -> respects R (bind c k).
Proof using R_trans.
  intros Hc Hk w. unfold bind. specialize (Hc w).
  destruct (c w) as [[a|e] w1]; simpl in *; [|done].
  eapply R_trans; [exact Hc | apply Hk].
Qed.

(** After a pure step the continuation is only met with the value the step
    gave. *)
Lemma respects_bind_lift {A B} (r : res A) (k : A -> M B) :
  (forall a, r = Ok a -> respects R (k a)) -> respects R (bind (lift r) k).
Proof using R_refl.
  intros Hk w. unfold bind, lift. destruct r as [a|e]; [by apply Hk | apply R_refl].
Qed.

Lemma respects_try {A} (c : M A) (h : exn -> M A) :
  respects R c -> (forall e, respects R (h e)) -> respects R (try_except c h).
Proof using R_trans.
  intros Hc Hh w. unfold try_except. specialize (Hc w).
  destruct (c w) as [[a|[cls msg|code]] w1]; simpl in *; try done.
  eapply R_trans; [exact Hc | apply Hh].
Qed.

Lemma respects_log_event e : ok_event e -> respects R (log_event e).
Proof using R_event. intros He w. by apply R_event. Qed.

Lemma respects_print s : respects R (print s).
Proof using R_stdout. intros w. apply R_stdout. Qed.

Lemma respects_print_err s : respects R (print_err s).
Proof using R_stderr. intros w. apply R_stderr. Qed.

Lemma respects_now : respects R now_isoformat.
Proof using R_tick. intros w. apply R_tick. Qed.

Lemma respects_read_text file :
  ok_event (EvOpenRead file) -> respects R (read_text file).
Proof using R_refl R_trans R_event.
  intros He. apply respects_bind; [by apply respects_log_event|]. intros _ w.
  destruct (lookup_node _ _) as [[]|]; apply R_refl.
Qed.

Lemma respects_messages_create key model mt temp prompt :
  ok_event (EvApi key model mt temp prompt) ->
  respects R (messages_create key model mt temp prompt).
Proof using R_event. intros He w. by apply R_event. Qed.

Lemma respects_write_text p content :
  ok_event (EvOpenWrite p) ->
  (forall m, lookup_node m (parent p) = Some Dir ->
             lookup_node m p <> Some Dir ->
             ok_fs m (<[p := File content]> m)) ->
  respects R (write_text p content).
Proof using R_refl R_trans R_event R_fs.
  intros He Hfs. apply respects_bind; [by apply respects_log_event|]. intros _ w.
  destruct (lookup_node (fs w) p) as [[]|] eqn:Ep;
    destruct (lookup_node (fs w) (parent p)) as [[]|] eqn:Epar; simpl;
    try apply R_refl; apply R_fs, Hfs; congruence.
Qed.

Lemma respects_mkdir_parents p :
  ok_event (EvMkdir p) ->
  (forall m, ok_fs m (mkdir_parents_rev (root p) (rev (parts p)) m).2) ->
  respects R (mkdir_parents p).
Proof using R_trans R_event R_fs.
  intros He Hfs. apply respects_bind; [by apply respects_log_event|]. intros _ w.
  specialize (Hfs (fs w)).
  destruct (mkdir_parents_rev _ _ _) as [r m]. simpl in *. by apply R_fs.
Qed.

Lemma respects_generate_single_summary self file_path :
  ok_event (EvSummaryStep file_path) ->
  ok_event (EvOpenRead file_path) ->
  (forall prompt, ok_event (EvApi (client self) model_id 4096 0 prompt)) ->
  respects R (generate_single_summary self file_path).
Proof using R_refl R_trans R_event.
  intros H1 H2 H3. unfold generate_single_summary.
  apply respects_bind; [by apply respects_log_event|]. intros _.
  apply respects_bind; [by apply respects_read_text|]. intros content.
  apply respects_bind; [apply respects_lift|]. intros rel.
  apply respects_bind; [by apply respects_messages_create|]. intros [|text more].
  - apply respects_raise.
  - apply respects_ret.
Qed.

(** [save_summary] on a relative path, which is what the loop gives it. *)
Lemma respects_save_summary self rel_path summary :
  root rel_path = [] ->
  ok_event (EvMkdir (parent (out_path (docs_path self) rel_path (u ".md")))) ->
  (forall m, ok_fs m (mkdir_parents_rev
                        (root (parent (out_path (docs_path self) rel_path (u ".md"))))
                        (rev (parts (parent (out_path (docs_path self) rel_path (u ".md")))))
                        m).2) ->
  (forall ext content,
     ext = u ".md" \/ ext = u ".json" ->
     let p := out_path (docs_path self) rel_path ext in
     ok_event (EvOpenWrite p)
     /\ forall m, lookup_node m (parent p) = Some Dir ->
                  lookup_node m p <> Some Dir ->
                  ok_fs m (<[p := File content]> m)) ->
  respects R (save_summary self rel_path summary).
Proof using R_refl R_trans R_event R_fs R_tick.
  intros Hrel Hmk Hmkfs Hwr. unfold save_summary.
  apply respects_bind_lift. intros md Hmd.
  pose proof (with_suffix_inv_name _ _ _ Hmd) as Hname.
  rewrite (with_suffix_ext _ _ is_ext_md Hname) in Hmd. injection Hmd as <-.
  rewrite (joinpath_replace_ext _ _ _ Hrel).
  apply respects_bind; [by apply respects_mkdir_parents|]. intros _.
  apply respects_bind;
    [apply respects_write_text; apply (Hwr (u ".md") summary); by left|].
  intros _.
  apply respects_bind_lift. intros md2 _.
  apply respects_bind; [apply respects_now|]. intros t.
  apply respects_bind_lift. intros js Hjs.
  unfold out_path in Hjs. rewrite app_assoc in Hjs.
  rewrite (with_suffix_twice _ _ _ _ _ (stem_nonempty _ Hname) is_ext_md is_ext_json)
    in Hjs.
  rewrite <- app_assoc in Hjs. injection Hjs as <-.
  match goal with
  | |- respects R (write_text _ ?c) =>
      apply respects_write_text; apply (Hwr (u ".json") c); by right
  end.
Qed.

End Respects.

Section RespectsLoop.

Variable R : World -> World -> Prop.
Hypothesis R_refl : forall w, R w w.
Hypothesis R_trans : forall w1 w2 w3, R w1 w2 -> R w2 w3 -> R w1 w3.
Hypothesis R_stdout : forall s w, R w (add_stdout s w).
Hypothesis R_stderr : forall s w, R w (add_stderr s w).

Variable self : SummaryGenerator.

(** What is known of the listed files. *)
Variable ok_file : str -> Prop.

Hypothesis R_step :
  forall file_path, respects R (generate_single_summary self file_path).
Hypothesis R_save :
  forall file_path rel_path summary,
    ok_file file_path ->
    relative_to (parse_path file_path) (workspace_path self) = Ok rel_path ->
    respects R (save_summary self rel_path summary).
Hypothesis R_docs : respects R (mkdir_parents (docs_path self)).

Lemma respects_process_file idx total file_path :
  ok_file file_path -> respects R (process_file self idx total file_path).
Proof using R_refl R_trans R_stdout R_step R_save.
  intros Hok. unfold process_file. apply respects_bind_lift; [done|].
  intros rel Hrel.
  apply respects_bind; [done | by apply respects_print |]. intros _.
  apply respects_bind; [done | apply R_step |]. intros summary.
  by apply (R_save file_path).
Qed.

Lemma respects_loop_turn idx total file_path :
  ok_file file_path -> respects R (loop_turn self idx total file_path).
Proof using R_refl R_trans R_stdout R_stderr R_step R_save.
  intros Hok. apply respects_try; [done | by apply respects_process_file |].
  intros e. by apply respects_print_err.
Qed.

Lemma respects_summaries_loop idx total file_paths :
  Forall ok_file file_paths ->
  respects R (summaries_loop self idx total file_paths).
Proof using R_refl R_trans R_stdout R_stderr R_step R_save.
  intros Hok. revert idx. induction Hok as [|f rest Hf Hrest IH]; intros idx.
  - by apply respects_ret.
  - simpl. apply respects_bind; [done | by apply respects_loop_turn |].
    intros _. apply IH.
Qed.

Lemma respects_generate_summaries file_paths :
  Forall ok_file file_paths ->
  respects R (generate_summaries self file_paths).
Proof using R_refl R_trans R_stdout R_stderr R_step R_save R_docs.
  intros Hok. unfold generate_summaries.
  apply respects_bind; [done | apply R_docs |].
  intros _. by apply respects_summaries_loop.
Qed.

End RespectsLoop.

Lemma main_related (R : World -> World -> Prop) args w :
  (forall w, R w w) ->
  (forall w1 w2 w3, R w1 w2 -> R w2 w3 -> R w1 w3) ->
  (forall s w, R w (add_stdout s w)) ->
  (forall s w, R w (add_stderr s w)) ->
  (forall w, R w (add_event (EvOpenRead (files args)) w)) ->
  respects R (generate_summaries
                (__init__ (workspace args) (default [] (resolve_key args w)))
                (listed_files args w)) ->
  R w (main args w).2.
Proof.
  intros Hrefl Htrans Hout Herr Hopen Hgen. rewrite main_cases.
  destruct (negb _); [apply Herr|]. cbv zeta. unfold listed_files in Hgen.
  destruct (lookup_node _ _) as [[content|]|]; [|apply Hopen..].
  destruct (file_list (universal_newlines content)) as [|f rest].
  - eapply Htrans; [apply Hopen | apply Herr].
  - eapply Htrans; [apply Hopen|].
    apply (respects_bind R Htrans); [apply Hgen|]. intros _.
    apply (respects_bind R Htrans); intros; by apply respects_print.
Qed.

(** ** What is sent to the remote API *)

Lemma emits_refl P w : emits P w w.
Proof. exists []. by rewrite app_nil_r. Qed.

Lemma emits_trans P w1 w2 w3 : emits P w1 w2 -> emits P w2 w3 -> emits P w1 w3.
Proof.
  intros (e1 & H1 & F1) (e2 & H2 & F2). exists (e1 ++ e2).
  split; [by rewrite H2, H1, app_assoc | by apply Forall_app].
Qed.

Lemma emits_event P e w : P e -> emits P w (add_event e w).
Proof. intros He. exists [e]. split; [done | by apply Forall_singleton]. Qed.

Lemma emits_same_trace P w w' : trace w' = trace w -> emits P w w'.
Proof. intros H. exists []. by rewrite app_nil_r. Qed.

Lemma emits_generate_summaries P self file_paths :
  (forall e, ~ is_api e = true -> P e) ->
  (forall prompt, P (EvApi (client self) model_id 4096 0 prompt)) ->
  respects (emits P) (generate_summaries self file_paths).
Proof.
  intros Hother Hapi.
  assert (Hev : forall e w, P e -> emits P w (add_event e w))
    by (intros; by apply emits_event).
  assert (Hfs : forall m w, any_fs (fs w) m -> emits P w (set_fs m w))
    by (intros; by apply emits_same_trace).
  apply respects_generate_summaries with (ok_file := fun _ => True);
    try (intros; by apply emits_same_trace);
    try apply emits_refl; try apply emits_trans; try by apply Forall_true.
  - intros f. apply (respects_generate_single_summary _ P);
      try apply emits_refl; try apply emits_trans; try done;
      by apply Hother.
  - intros f rel summary _ Hrel.
    apply relative_to_under in Hrel as (_ & Hrel & _).
    apply (respects_save_summary _ P any_fs);
      try apply emits_refl; try apply emits_trans; try done;
      try (intros; by apply emits_same_trace);
      try (by apply Hother).
    intros ext content _. split; [by apply Hother | done].
  - apply (respects_mkdir_parents _ P any_fs);
      try apply emits_trans; try done. by apply Hother.
Qed.

(** X6: every request of a run carries the key that [main] resolved (the
    one of the command line when it is not empty, else the one of the
    environment), the fixed model identifier, [max_tokens] 4096 and
    temperature 0. *)
Theorem X6_requests_carry_key_and_parameters args w :
  exists evs,
    trace (main args w).2 = trace w ++ evs
    /\ Forall (request_ok (default [] (resolve_key args w))) evs.
Proof.
  assert (Hm : emits (request_ok (default [] (resolve_key args w))) w (main args w).2).
  { apply (main_related (emits (request_ok (default [] (resolve_key args w)))));
      try apply emits_refl; try apply emits_trans;
      try (intros; by apply emits_same_trace).
    - intros w0. by apply emits_event.
    - apply emits_generate_summaries.
      + intros e He. by destruct e.
      + by intros prompt. }
  destruct Hm as (evs & H1 & H2). by exists evs.
Qed.

(** ** No retries *)

Lemma api_count_app t1 t2 : api_count (t1 ++ t2) = (api_count t1 + api_count t2)%nat.
Proof. unfold api_count. by rewrite List.filter_app, length_app. Qed.






(** ** The summary step on a file that can be read *)

Lemma generate_single_summary_run self file_path w content rel :
  lookup_node (fs w) (parse_path file_path) = Some (File content) ->
  relative_to (parse_path file_path) (workspace_path self) = Ok rel ->
  let prompt := build_analysis_prompt (path_str rel) (suffix (parse_path file_path))
                  (universal_newlines content) in
  generate_single_summary self file_path w
  = (match api w (api_count (trace w)) (client self) prompt with
     | Reply (text :: _) => Ok text
     | Reply [] => Raise (Exn IndexError (u "list index out of range"))
     | Failure msg => Raise (Exn APIError msg)
     end,
     add_event (EvApi (client self) model_id 4096 0 prompt)
       (add_event (EvOpenRead file_path)
          (add_event (EvSummaryStep file_path) w))).
Proof.
  intros Hread Hrel prompt.
  unfold generate_single_summary, bind, log_event, read_text, lift,
    messages_create, bind, log_event.
  cbn [fs add_event trace api]. rewrite Hread, Hrel.
  cbn [fs add_event trace api fst snd].
  rewrite !api_count_app. unfold api_count at 2 3. simpl. rewrite !Nat.add_0_r.
  fold prompt. by destruct (api w _ _ prompt) as [[|text more]|msg].
Qed.

Lemma loop_turn_before_save_raise self idx total file_path w cls msg w0 :
  before_save self idx total file_path w = (Raise (Exn cls msg), w0) ->
  loop_turn self idx total file_path w
  = (Ok tt, add_stderr (error_line file_path (Exn cls msg)) w0).
Proof.
  intros H. apply loop_turn_Raise. rewrite process_file_split.
  by apply bind_Raise.
Qed.

(** X8: for a file under the workspace root that can be read, when the
    request fails, or comes back with no text segment at all, the file is
    skipped: the message of the failure (or ``list index out of range'') is
    logged with the path, the request is counted as sent, and nothing is
    written. *)
Theorem X8_failed_or_empty_reply self idx total file_path w content rel e :
  relative_to (parse_path file_path) (workspace_path self) = Ok rel ->
  lookup_node (fs w) (parse_path file_path) = Some (File content) ->
  let prompt := build_analysis_prompt (path_str rel) (suffix (parse_path file_path))
                  (universal_newlines content) in
  (api w (api_count (trace w)) (client self) prompt = Reply []
   /\ e = Exn IndexError (u "list index out of range"))
  \/ (exists msg, api w (api_count (trace w)) (client self) prompt = Failure msg
                  /\ e = Exn APIError msg) ->
  exists w1,
    loop_turn self idx total file_path w = (Ok tt, w1)
    /\ stderr w1 = stderr w ++ [error_line file_path e]
    /\ api_prompts (trace w1) = api_prompts (trace w) ++ [prompt]
    /\ fs w1 = fs w.
Proof.
  intros Hrel Hread prompt Hreply.
  assert (Hb : exists cls msg w0,
             e = Exn cls msg
             /\ before_save self idx total file_path w = (Raise e, w0)
             /\ stderr w0 = stderr w /\ fs w0 = fs w
             /\ api_prompts (trace w0) = api_prompts (trace w) ++ [prompt]).
  { unfold before_save.
    rewrite (bind_Ok _ _ _ _ _ (lift_Ok _ _ w Hrel)).
    match goal with
    | |- context [bind (print ?s) _ w] =>
        rewrite (bind_Ok (print s) _ w tt (add_stdout s w)) by done;
        set (w0 := add_stdout s w)
    end.
    pose proof (generate_single_summary_run self file_path w0 content rel
                  Hread Hrel) as Hrun.
    cbv zeta in Hrun. fold prompt in Hrun.
    change (api w0) with (api w) in Hrun. change (trace w0) with (trace w) in Hrun.
    destruct Hreply as [[Hr ->]|(msg & Hr & ->)]; rewrite Hr in Hrun;
      rewrite (bind_Raise _ _ _ _ _ Hrun);
      eexists _, _, _; (split; [reflexivity|]); (split; [reflexivity|]);
      cbn [stderr fs trace add_event add_stdout w0];
      unfold api_prompts; rewrite !omap_app; simpl; by rewrite !app_nil_r. }
  destruct Hb as (cls & msg & w0 & -> & Hb & Herr & Hfs & Hp).
  exists (add_stderr (error_line file_path (Exn cls msg)) w0).
  split; [by apply loop_turn_before_save_raise|].
  simpl. by rewrite Herr.
Qed.

Lemma X8_witness :
  let w := Demo2.with_api (fun _ _ _ => Reply []) (Demo.world (u "/ws/a.py") []) in
  exists w1,
    loop_turn (__init__ Demo.ws (u "sk-test")) 1 1 (u "/ws/a.py") w = (Ok tt, w1)
    /\ stderr w1
       = [error_line (u "/ws/a.py") (Exn IndexError (u "list index out of range"))]
    /\ fs w1 = fs w.
Proof.
  intros w.
  destruct (X8_failed_or_empty_reply (__init__ Demo.ws (u "sk-test")) 1 1
              (u "/ws/a.py") w (u "print(1)") (parse_path (u "a.py"))
              (Exn IndexError (u "list index out of range")))
    as (w1 & H1 & H2 & _ & H3).
  - by vm_compute.
  - by vm_compute.
  - left. by split.
  - by exists w1.
Defined.

(** ** The size of the prompt *)

(** X9: the source text adds to the prompt its own length, capped at 8000,
    and the 14 characters of the marker when it is capped: whatever the size
    of the file, the prompt is at most 8014 characters longer than the prompt
    for an empty file. *)
Theorem X9_prompt_length rel_path file_ext content :
  length (build_analysis_prompt rel_path file_ext content)
  = (length (build_analysis_prompt rel_path file_ext [])
     + Nat.min (length content) (N.to_nat 8000)
     + (if (N.to_nat 8000 <? length content)%nat then 14 else 0))%nat
  /\ N.of_nat (length (build_analysis_prompt rel_path file_ext content))
     <= N.of_nat (length (build_analysis_prompt rel_path file_ext [])) + 8014.
Proof.
  assert (Hm : length marker = 14%nat) by reflexivity.
  assert (H0 : (budget <? 0)%nat = false) by (apply Nat.ltb_ge; lia).
  assert (Heq : length (build_analysis_prompt rel_path file_ext content)
                = (length (build_analysis_prompt rel_path file_ext [])
                   + Nat.min (length content) (N.to_nat 8000)
                   + (if (N.to_nat 8000 <? length content)%nat then 14 else 0))%nat).
  { unfold build_analysis_prompt. rewrite !length_app, length_take.
    rewrite take_nil. cbn [length]. rewrite H0. cbn [length].
    fold budget. destruct (budget <? length content)%nat; rewrite ?Hm;
      cbn [length]; lia. }
  split; [exact Heq|]. rewrite Heq.
  destruct (N.to_nat 8000 <? length content)%nat; lia.
Qed.

(** ** The label of the code fence *)

Lemma rfind_None c s : rfind c s = None -> c ∉ s.
Proof.
  induction s as [|x s IH]; simpl; [intros _; apply not_elem_of_nil|].
  destruct (rfind c s); [done|]. destruct (x =? c) eqn:E; [done|].
  intros _. apply N.eqb_neq in E. apply not_elem_of_cons. split; [done | by apply IH].
Qed.

Lemma rfind_Some c s i :
  rfind c s = Some i -> drop i s = c :: drop (S i) s /\ c ∉ drop (S i) s.
Proof.
  revert i. induction s as [|x s IH]; intros i; simpl; [done|].
  destruct (rfind c s) as [j|] eqn:E.
  - intros [= <-]. simpl. by apply IH.
  - destruct (x =? c) eqn:Ex; [|done]. intros [= <-]. simpl.
    apply N.eqb_eq in Ex as ->. rewrite drop_0. split; [done | by apply rfind_None].
Qed.

(** What [suffix] gives is empty, or a dot followed by at least one
    character, none of them a dot. *)
Lemma suffix_shape p :
  suffix p = [] \/ exists label, suffix p = dot :: label /\ label <> [] /\ (dot ∉ label).
Proof.
  unfold suffix, suffix_index.
  destruct (rfind dot (name p)) as [i|] eqn:E; [|by left].
  destruct (0 <? i)%nat; simpl; [|by left].
  destruct (S i <? length (name p))%nat eqn:El; [|by left].
  right. apply rfind_Some in E as [E1 E2]. exists (drop (S i) (name p)).
  repeat split; [done | | done].
  apply Nat.ltb_lt in El. intros H%(f_equal length).
  rewrite length_drop in H. simpl in H. lia.
Qed.

(** X10: the code fence of the prompt is opened with a label that is never
    empty and has no dot: the extension of the listed file without its dot,
    or [txt] for a file without extension. *)
Theorem X10_code_fence_label rel_path file_path :
  exists head label,
    (suffix (parse_path file_path) = dot :: label
     \/ (suffix (parse_path file_path) = [] /\ label = u "txt"))
    /\ label <> [] /\ (dot ∉ label)
    /\ forall content,
         build_analysis_prompt rel_path (suffix (parse_path file_path)) content
         = head ++ u "```" ++ label ++ [10] ++ take (N.to_nat 8000) content
             ++ u "  "
             ++ (if (N.to_nat 8000 <? length content)%nat then marker else [])
             ++ prompt_tail.
Proof.
  assert (Hsplit : forall P L L' lang rest fence : str,
             L = L' ++ fence ->
             P ++ L ++ lang ++ rest = (P ++ L') ++ fence ++ lang ++ rest).
  { intros P L L' lang rest fence ->. by rewrite <- !app_assoc. }
  assert (Hprompt : forall ext label : str,
             (if truthy ext then drop 1 ext else u "txt") = label ->
             exists head, forall content,
               build_analysis_prompt rel_path ext content
               = head ++ u "```" ++ label ++ [10] ++ take (N.to_nat 8000) content
                   ++ u "  "
                   ++ (if (N.to_nat 8000 <? length content)%nat then marker else [])
                   ++ prompt_tail).
  { intros ext label Hl. eexists. intros content.
    unfold build_analysis_prompt. rewrite Hl. fold budget.
    do 9 rewrite app_assoc.
    match goal with
    | |- ?P ++ ?L ++ _ = _ =>
        let L' := eval vm_compute in (take (length L - 3) L) in
        rewrite (Hsplit P L L' _ _ (u "```") ltac:(vm_compute; reflexivity))
    end.
    reflexivity. }
  destruct (suffix_shape (parse_path file_path)) as [E|(label & E & Hne & Hdot)];
    rewrite E.
  - destruct (Hprompt [] (u "txt") eq_refl) as [head Hhead].
    exists head, (u "txt"). split; [by right|]. split; [done|].
    split; [apply contains_char_false; by vm_compute | exact Hhead].
  - destruct (Hprompt (dot :: label) label eq_refl) as [head Hhead].
    exists head, label. split; [by left|]. by repeat split.
Qed.

(** ** The entries of the file list *)

Lemma lstrip_head s c r : lstrip s = c :: r -> is_space c = false.
Proof.
  induction s as [|x s IH]; simpl; [done|].
  destruct (is_space x) eqn:E; [done | by intros [= <- _]].
Qed.

Lemma lstrip_decompose s :
  exists pre, s = pre ++ lstrip s /\ forallb is_space pre = true.
Proof.
  induction s as [|x s (pre & IH & Hpre)]; simpl; [by exists []|].
  destruct (is_space x) eqn:E; [|by exists []].
  exists (x :: pre). simpl. rewrite E, Hpre. split; [by rewrite <- IH | done].
Qed.

Lemma rstrip_decompose s :
  exists post, s = rstrip s ++ post /\ forallb is_space post = true.
Proof.
  unfold rstrip. destruct (lstrip_decompose (rev s)) as (pre & H & Hpre).
  exists (rev pre). split.
  - rewrite <- rev_app_distr, <- H. by rewrite rev_involutive.
  - rewrite forallb_forall in *. intros x Hx. apply Hpre. by apply in_rev.
Qed.

Lemma rstrip_last s c r : rstrip s = r ++ [c] -> is_space c = false.
Proof.
  unfold rstrip. intros H%(f_equal (@rev N)).
  rewrite rev_involutive, rev_app_distr in H. simpl in H.
  by apply lstrip_head in H.
Qed.

(** What [strip] leaves of a line: the line without the white space around
    it, and when anything is left it starts and ends with a character that
    is not white space. *)
Lemma strip_spec s :
  (exists pre post, s = pre ++ strip s ++ post
                    /\ forallb is_space pre = true
                    /\ forallb is_space post = true)
  /\ (forall c r, strip s = c :: r -> is_space c = false)
  /\ (forall c r, strip s = r ++ [c] -> is_space c = false).
Proof.
  unfold strip.
  destruct (lstrip_decompose s) as (pre & Hs & Hpre).
  destruct (rstrip_decompose (lstrip s)) as (post & Ht & Hpost).
  repeat split.
  - exists pre, post. by rewrite <- Ht.
  - intros c r H. rewrite H in Ht. by apply lstrip_head in Ht.
  - intros c r. apply rstrip_last.
Qed.

(** X11: every entry of the file list is a line of the list file with the
    white space around it removed and nothing else changed; it is not empty
    and neither starts nor ends with white space (so it holds no end of
    line). *)
Theorem X11_file_list_entries_trimmed content file_path :
  file_path ∈ file_list content ->
  file_path <> []
  /\ (exists line pre post,
        line ∈ readlines content /\ line = pre ++ file_path ++ post
        /\ forallb is_space pre = true /\ forallb is_space post = true)
  /\ (forall c r, file_path = c :: r -> is_space c = false)
  /\ (forall c r, file_path = r ++ [c] -> is_space c = false).
Proof.
  unfold file_list. intros Hin. apply list_elem_of_In, List.filter_In in Hin as [Hin Ht].
  apply list_elem_of_In, list_elem_of_fmap in Hin as (line & -> & Hline).
  destruct (strip_spec line) as ((pre & post & Hl & Hpre & Hpost) & Hhead & Hlast).
  repeat split; [by destruct (strip line) | | done..].
  by exists line, pre, post.
Qed.

Lemma X11_witness :
  u "/ws/b c.py" ∈ file_list ([9; 32] ++ u "/ws/b c.py" ++ [32; 13; 10])
  /\ u "/ws/b c.py" <> [].
Proof.
  assert (H : u "/ws/b c.py" ∈ file_list ([9; 32] ++ u "/ws/b c.py" ++ [32; 13; 10]))
    by (vm_compute; apply list_elem_of_here).
  split; [exact H|].
  apply (X11_file_list_entries_trimmed _ _ H).
Defined.

(** ** The two output streams of the loop *)

Lemma generate_single_summary_stdout self file_path w :
  stdout (generate_single_summary self file_path w).2 = stdout w.
Proof.
  revert w. change (preserves stdout (generate_single_summary self file_path)).
  unfold generate_single_summary.
  repeat (first [ by apply (preserves_log_event stdout any_event)
                | by apply (preserves_read_text stdout any_event)
                | apply preserves_lift
                | by apply (preserves_messages_create stdout any_event)
                | apply preserves_raise | apply preserves_ret
                | match goal with
                  | |- preserves _ (match ?x with _ => _ end) => destruct x
                  end
                | apply preserves_bind; [|intros ?] ]).
Qed.

Lemma save_summary_stdout self rel_path summary w :
  stdout (save_summary self rel_path summary w).2 = stdout w.
Proof.
  revert w. change (preserves stdout (save_summary self rel_path summary)).
  by apply (preserves_save_summary stdout any_event).
Qed.

Lemma process_file_stdout self idx total file_path w :
  stdout (process_file self idx total file_path w).2
  = stdout w ++ progress_lines (workspace_path self) idx total [file_path].
Proof.
  unfold process_file, progress_lines. rewrite app_nil_r.
  destruct (relative_to _ _) as [rel|e].
  - rewrite (bind_Ok _ _ w rel w) by done.
    match goal with
    | |- context [bind (print ?s) _ w] =>
        rewrite (bind_Ok (print s) _ w tt (add_stdout s w)) by done;
        set (w0 := add_stdout s w)
    end.
    pose proof (generate_single_summary_stdout self file_path w0) as Hs.
    unfold bind.
    destruct (generate_single_summary self file_path w0) as [[summary|e] w2];
      simpl in *; by rewrite ?save_summary_stdout, Hs.
  - rewrite (bind_Raise _ _ w e w) by done. simpl. by rewrite app_nil_r.
Qed.

Lemma progress_lines_length self idx total file_paths :
  length (progress_lines (workspace_path self) idx total file_paths)
  = length (List.filter (in_workspace self) file_paths).
Proof.
  revert idx. induction file_paths as [|f rest IH]; intros idx; [done|].
  cbn [progress_lines List.filter]. rewrite length_app, IH.
  destruct (in_workspace self f) eqn:E; unfold in_workspace in E.
  - apply bool_decide_eq_true in E. apply relative_to_Ok_iff in E as [rel ->]. done.
  - apply bool_decide_eq_false in E.
    destruct (relative_to_Raise _ _ E) as [msg ->]. done.
Qed.

(** X12: what the loop prints on standard output does not depend on what
    happens to the files: it is one line for each listed file under the
    workspace root, with the position of the file in the whole list (files
    outside the root are counted but not announced), the length of the list
    and the relative path. *)
Theorem X12_progress_lines self idx total file_paths w :
  stdout (summaries_loop self idx total file_paths w).2
  = stdout w ++ progress_lines (workspace_path self) idx total file_paths
  /\ length (progress_lines (workspace_path self) idx total file_paths)
     = length (List.filter (in_workspace self) file_paths).
Proof.
  split; [|apply progress_lines_length].
  revert idx w. induction file_paths as [|f rest IH]; intros idx w.
  - simpl. by rewrite app_nil_r.
  - rewrite summaries_loop_step, IH.
    assert (Ht : stdout (loop_turn self idx total f w).2
                 = stdout (process_file self idx total f w).2).
    { unfold loop_turn, try_except.
      by destruct (process_file _ _ _ _ w) as [[[]|[cls msg|code]] w1]. }
    rewrite Ht, process_file_stdout. simpl.
    by rewrite app_nil_r, <- app_assoc.
Qed.

Lemma loop_turn_stderr self idx total file_path w :
  stderr (loop_turn self idx total file_path w).2
  = stderr w
    ++ match (process_file self idx total file_path w).1 with
       | Raise e => [error_line file_path e]
       | Ok _ => []
       end
  /\ match (process_file self idx total file_path w).1 with
     | Raise e => is_Exception e
     | Ok _ => True
     end.
Proof.
  pose proof (process_file_stderr self idx total file_path w) as H.
  pose proof (catchable_process_file self idx total file_path w) as Hc.
  unfold loop_turn, try_except.
  destruct (process_file _ _ _ _ w) as [[[]|[cls msg|code]] w1]; simpl in *.
  - by rewrite app_nil_r.
  - by rewrite H.
  - by destruct (Hc _ eq_refl).
Qed.

(** X13: what the loop prints on the error stream is one line for each
    file whose processing raised and none for the others, in the order of
    the list: each line holds the path as it was listed and the message of
    the exception, which is an [Exception]. *)
Theorem X13_error_lines self idx total file_paths w :
  let failed := loop_failures self idx total file_paths w in
  stderr (summaries_loop self idx total file_paths w).2
  = stderr w ++ ((fun fe => error_line fe.1 fe.2) <$> failed)
  /\ failed.*1 `sublist_of` file_paths
  /\ Forall (fun fe => is_Exception fe.2) failed.
Proof.
  cbv zeta. revert idx w. induction file_paths as [|f rest IH]; intros idx w.
  - simpl. by rewrite app_nil_r.
  - rewrite summaries_loop_step. cbn [loop_failures].
    destruct (IH (S idx) (loop_turn self idx total f w).2) as (H1 & H2 & H3).
    destruct (loop_turn_stderr self idx total f w) as [Ht He].
    rewrite H1, Ht.
    destruct (process_file self idx total f w).1 as [[]|e]; simpl.
    + rewrite app_nil_r. split; [done|].
      split; [by apply sublist_cons | done].
    + rewrite <- app_assoc.
      split; [done|]. split; [by apply sublist_skip | by apply Forall_cons].
Qed.

(** ** What the run does to the file system *)

Lemma adds_dirs_refl S m : adds_dirs S m m.
Proof. intros q. by left. Qed.

Lemma adds_dirs_trans S m1 m2 m3 :
  adds_dirs S m1 m2 -> adds_dirs S m2 m3 -> adds_dirs S m1 m3.
Proof.
  intros H1 H2 q. destruct (H1 q) as [E1|(E1 & E1' & HS1)];
    destruct (H2 q) as [E2|(E2 & E2' & HS2)].
  - left. congruence.
  - right. repeat split; [congruence | done..].
  - right. repeat split; [done | congruence | done].
  - congruence.
Qed.

Lemma adds_dirs_mono (S S' : Path -> Prop) m m' :
  (forall q, S q -> S' q) -> adds_dirs S m m' -> adds_dirs S' m m'.
Proof.
  intros HS H q. destruct (H q) as [E|(E & E' & Hq)]; [by left|].
  right. repeat split; [done..|]. by apply HS.
Qed.

Lemma os_mkdir_adds p m : adds_dirs (eq p) m (os_mkdir p m).2.
Proof.
  unfold os_mkdir. destruct (lookup_node m p) eqn:Ep; [apply adds_dirs_refl|].
  destruct (lookup_node m (parent p)) as [[]|]; try apply adds_dirs_refl.
  simpl. intros q. destruct (decide (p = q)) as [<-|Hne].
  - right. unfold lookup_node in Ep. destruct (parts p); [done|].
    by rewrite lookup_insert_eq.
  - left. by rewrite lookup_insert_ne.
Qed.

Lemma mkdir_exist_ok_adds p m : adds_dirs (eq p) m (mkdir_exist_ok p m).2.
Proof.
  unfold mkdir_exist_ok. pose proof (os_mkdir_adds p m) as H.
  destruct (os_mkdir p m) as [[[]|e] m']; [done|].
  destruct (is_FileNotFoundError e); [done|]. by destruct (is_dir m' p).
Qed.

(** [mkdir] with [parents] makes directories only, where there was nothing,
    at the path it is given or above it. *)
Lemma mkdir_parents_rev_adds r rparts m :
  adds_dirs (above (mkPath r (rev rparts))) m (mkdir_parents_rev r rparts m).2.
Proof.
  revert m. induction rparts as [|x rparent IH]; intros m;
    rewrite mkdir_parents_rev_eq; cbv zeta;
    match goal with
    | |- context [os_mkdir ?p m] =>
        pose proof (os_mkdir_adds p m) as H;
        apply (adds_dirs_mono _ (above p)) in H;
        [|by intros q <-; split]
    end;
    (destruct (os_mkdir _ m) as [[[]|e] m1]; [done|]);
    (destruct (is_FileNotFoundError e); [|by destruct (is_dir m1 _)]).
  - done.
  - specialize (IH m1).
    apply (adds_dirs_mono _ (above (mkPath r (rev (x :: rparent))))) in IH.
    2:{ intros q [Hr Hp]. split; [done|]. simpl in *. by apply prefix_app_r. }
    destruct (mkdir_parents_rev r rparent m1) as [[[]|e1] m2].
    + pose proof (mkdir_exist_ok_adds (mkPath r (rev (x :: rparent))) m2) as H2.
      apply (adds_dirs_mono _ (above (mkPath r (rev (x :: rparent))))) in H2;
        [|by intros q <-; split].
      eapply adds_dirs_trans; [exact H|]. eapply adds_dirs_trans; [exact IH|].
      exact H2.
    + eapply adds_dirs_trans; [exact H | exact IH].
Qed.

Lemma mkdir_parents_adds p m :
  adds_dirs (above p) m (mkdir_parents_rev (root p) (rev (parts p)) m).2.
Proof.
  pose proof (mkdir_parents_rev_adds (root p) (rev (parts p)) m) as H.
  rewrite rev_involutive in H. by destruct p.
Qed.












Lemma same_kind_refl x : same_kind x x.
Proof. by destruct x. Qed.

Lemma same_kind_trans x y z : same_kind x y -> same_kind y z -> same_kind x z.
Proof. by destruct x, y, z. Qed.

Lemma kinds_kept_refl m : kinds_kept m m.
Proof. intros q x H. exists x. split; [done | apply same_kind_refl]. Qed.

Lemma kinds_kept_trans m1 m2 m3 :
  kinds_kept m1 m2 -> kinds_kept m2 m3 -> kinds_kept m1 m3.
Proof.
  intros H1 H2 q x Hx. destruct (H1 q x Hx) as (y & Hy & Hxy).
  destruct (H2 q y Hy) as (z & Hz & Hyz). exists z.
  split; [done | by eapply same_kind_trans].
Qed.

Lemma adds_dirs_kinds_kept S m m' : adds_dirs S m m' -> kinds_kept m m'.
Proof.
  intros H q x Hx. destruct (H q) as [E|(E & _)]; [|congruence].
  exists x. split; [congruence | apply same_kind_refl].
Qed.

Lemma kinds_kept_write p content m :
  lookup_node m p <> Some Dir -> kinds_kept m (<[p := File content]> m).
Proof.
  intros Hp q x Hx. destruct (decide (p = q)) as [<-|Hne].
  - exists (File content). rewrite lookup_insert_eq. split; [done|].
    unfold lookup_node in Hp. destruct (parts p); [done|].
    destruct x; [done | congruence].
  - exists x. rewrite lookup_insert_ne by done. split; [done | apply same_kind_refl].
Qed.

Lemma fs_kinds_kept_generate_summaries self file_paths :
  respects fs_kinds_kept (generate_summaries self file_paths).
Proof.
  assert (Hrefl : forall w, fs_kinds_kept w w) by (intros; apply kinds_kept_refl).
  assert (Htrans : forall w1 w2 w3, fs_kinds_kept w1 w2 ->
                     fs_kinds_kept w2 w3 -> fs_kinds_kept w1 w3)
    by (intros w1 w2 w3; apply kinds_kept_trans).
  assert (Hev : forall e w, every_event e -> fs_kinds_kept w (add_event e w))
    by (intros; apply kinds_kept_refl).
  assert (Hfs : forall m w, kinds_kept (fs w) m -> fs_kinds_kept w (set_fs m w))
    by (by intros).
  apply respects_generate_summaries with (ok_file := fun _ => True);
    try done; try by apply Forall_true.
  - intros f. by apply (respects_generate_single_summary _ every_event).
  - intros f rel summary _ Hrel.
    apply relative_to_under in Hrel as (_ & Hrel & _).
    apply (respects_save_summary _ every_event kinds_kept); try done.
    + intros m. eapply adds_dirs_kinds_kept, mkdir_parents_adds.
    + intros ext content _. split; [done|]. intros m _ Hp.
      by apply kinds_kept_write.
  - apply (respects_mkdir_parents _ every_event kinds_kept); try done.
    intros m. eapply adds_dirs_kinds_kept, mkdir_parents_adds.
Qed.

(** X15: a run removes nothing and never turns a file into a directory or a
    directory into a file: whatever path held a file before holds a file
    after it, and whatever held a directory still holds one. *)
Theorem X15_nothing_removed_kinds_kept args w q x :
  fs w !! q = Some x ->
  exists y, fs (main args w).2 !! q = Some y /\ same_kind x y.
Proof.
  revert q x. change (fs_kinds_kept w (main args w).2).
  apply (main_related fs_kinds_kept);
    try (intros; apply kinds_kept_refl).
  - intros w1 w2 w3. apply kinds_kept_trans.
  - apply fs_kinds_kept_generate_summaries.
Qed.

Lemma X15_witness :
  exists y,
    fs (main Demo.args (Demo.world (u "/ws/a.py") [])).2 !! parse_path (u "/ws/a.py")
    = Some y
    /\ same_kind (File (u "print(1)")) y.
Proof.
  apply (X15_nothing_removed_kinds_kept Demo.args (Demo.world (u "/ws/a.py") [])
           (parse_path (u "/ws/a.py")) (File (u "print(1)"))).
  by vm_compute.
Defined.

(** ** Paths written and read back *)

Lemma split_no_sep c s : Forall (fun x => c ∉ x) (split c s).
Proof.
  induction s as [|y s IH]; simpl.
  - apply Forall_singleton, not_elem_of_nil.
  - destruct (y =? c) eqn:E.
    + apply Forall_cons. split; [apply not_elem_of_nil | done].
    + apply N.eqb_neq in E. destruct (split c s) as [|h t].
      * apply Forall_singleton. apply not_elem_of_cons. split; [done|apply not_elem_of_nil].
      * apply Forall_cons in IH as [Hh Ht]. apply Forall_cons. split; [|done].
        apply not_elem_of_cons. by split.
Qed.

Lemma split_none c x : c ∉ x -> split c x = [x].
Proof.
  induction x as [|y x IH]; simpl; [done|].
  intros [Hy Hx]%not_elem_of_cons.
  destruct (y =? c) eqn:E; [apply N.eqb_eq in E; congruence|].
  by rewrite (IH Hx).
Qed.

Lemma split_app c x t : c ∉ x -> split c (x ++ c :: t) = x :: split c t.
Proof.
  induction x as [|y x IH]; simpl.
  - by rewrite N.eqb_refl.
  - intros [Hy Hx]%not_elem_of_cons.
    destruct (y =? c) eqn:E; [apply N.eqb_eq in E; congruence|].
    by rewrite (IH Hx).
Qed.

Lemma split_join c l :
  l <> [] -> Forall (fun x => c ∉ x) l -> split c (join [c] l) = l.
Proof.
  induction l as [|x l IH]; [done|]. intros _ [Hx Hl]%Forall_cons.
  destruct l as [|y l]; [by apply split_none|].
  change (join [c] (x :: y :: l)) with (x ++ c :: join [c] (y :: l)).
  rewrite (split_app _ _ _ Hx). f_equal. by apply IH.
Qed.

Lemma keep_part_clean x : clean_part x -> keep_part x = true.
Proof.
  intros (H1 & H2 & _). unfold keep_part.
  apply andb_true_iff. split; apply negb_true_iff; by apply str_eqb_false.
Qed.

Lemma parse_path_clean s : Forall clean_part (parts (parse_path s)).
Proof.
  unfold parse_path. destruct (splitroot s) as [r rel]. simpl.
  apply Forall_forall. intros x Hx.
  apply list_elem_of_In, List.filter_In in Hx as [Hx Hk].
  unfold keep_part in Hk. apply andb_true_iff in Hk as [H1 H2].
  apply negb_true_iff, str_eqb_false in H1, H2.
  repeat split; [done..|].
  pose proof (split_no_sep sep rel) as Hs.
  rewrite Forall_forall in Hs. by apply Hs, list_elem_of_In.
Qed.

Lemma filter_all_true {A} (f : A -> bool) l :
  Forall (fun x => f x = true) l -> List.filter f l = l.
Proof.
  induction 1 as [|x l Hx _ IH]; simpl; [done|]. by rewrite Hx, IH.
Qed.

(** A relative path with clean components reads back from its string. *)
Lemma parse_path_str rel :
  root rel = [] -> Forall clean_part (parts rel) -> parse_path (path_str rel) = rel.
Proof.
  destruct rel as [r ps]. cbn [root parts]. intros -> Hclean.
  destruct ps as [|x l]; [by vm_compute|].
  assert (Hj : exists c t, join [sep] (x :: l) = c :: t /\ c <> sep).
  { apply Forall_cons in Hclean as [(Hx & _ & Hsep) _].
    destruct x as [|c x]; [done|]. exists c.
    apply not_elem_of_cons in Hsep as [Hc _].
    destruct l; simpl; eauto. }
  destruct Hj as (c & t & Hj & Hc).
  assert (Hparse : parse_path (join [sep] (x :: l)) = mkPath [] (x :: l)).
  { unfold parse_path, splitroot. rewrite Hj.
    apply N.eqb_neq in Hc. rewrite Hc. rewrite <- Hj. f_equal.
    rewrite split_join; [|done|].
    - apply filter_all_true. eapply Forall_impl; [exact Hclean|].
      intros y. apply keep_part_clean.
    - eapply Forall_impl; [exact Hclean|]. by intros y (_ & _ & H). }
  unfold path_str. cbn [root parts app]. rewrite Hj. cbv iota. by rewrite <- Hj.
Qed.

Lemma relative_to_clean s W rel :
  relative_to (parse_path s) W = Ok rel ->
  root rel = [] /\ Forall clean_part (parts rel)
  /\ parts (parse_path s) = parts W ++ parts rel.
Proof.
  intros (_ & Hr & Hp)%relative_to_under. repeat split; [done| |done].
  pose proof (parse_path_clean s) as Hc. rewrite Hp in Hc.
  by apply Forall_app in Hc as [_ Hc].
Qed.

Lemma last_app_nonempty {A} (a b : list A) d :
  b <> [] -> List.last (a ++ b) d = List.last b d.
Proof.
  intros Hb. rewrite (app_removelast_last d Hb) at 1.
  by rewrite app_assoc, List.last_last.
Qed.

Lemma name_relative s W rel :
  relative_to (parse_path s) W = Ok rel -> parts rel <> [] ->
  name rel = name (parse_path s) /\ name rel <> [].
Proof.
  intros H Hne. destruct (relative_to_clean _ _ _ H) as (_ & Hc & Hp).
  unfold name. rewrite Hp. split.
  - symmetry. by apply last_app_nonempty.
  - rewrite (app_removelast_last [] Hne), Forall_app, Forall_singleton in Hc.
    apply Hc.
Qed.

(** X17: for a listed file under the workspace root (and not the root
    itself), the relative path that is printed, sent in the prompt and put
    in the metadata reads back as the same path; the name in the title of
    the prompt is the stem of the listed file, and the summary file is named
    after that stem. *)
Theorem X17_relative_path_and_stem file_path W rel :
  relative_to (parse_path file_path) W = Ok rel ->
  parts rel <> [] ->
  parse_path (path_str rel) = rel
  /\ stem (parse_path (path_str rel)) = stem (parse_path file_path)
  /\ with_suffix rel (u ".md")
     = Ok (mkPath [] (removelast (parts rel)
                        ++ [stem (parse_path file_path) ++ u ".md"])).
Proof.
  intros Hrel Hne.
  destruct (relative_to_clean _ _ _ Hrel) as (Hroot & Hclean & _).
  destruct (name_relative _ _ _ Hrel Hne) as [Hname Hnn].
  assert (Hstem : stem rel = stem (parse_path file_path))
    by (unfold stem; by rewrite Hname).
  rewrite (parse_path_str _ Hroot Hclean). repeat split; [done|].
  rewrite (with_suffix_ext _ _ is_ext_md Hnn). unfold replace_ext.
  by rewrite Hroot, Hstem.
Qed.

Lemma X17_witness :
  parse_path (path_str (parse_path (u "src/foo/bar.ts"))) = parse_path (u "src/foo/bar.ts")
  /\ stem (parse_path (u "src/foo/bar.ts")) = u "bar".
Proof.
  destruct (X17_relative_path_and_stem (u "/ws/src/foo/bar.ts") (parse_path (u "/ws"))
              (parse_path (u "src/foo/bar.ts"))) as (H1 & H2 & _).
  - by vm_compute.
  - by vm_compute.
  - split; [exact H1|]. by vm_compute.
Defined.

(** ** A file that goes through *)








(** ** Two files with one stem *)

Lemma process_file_outputs self idx total file_path w w' :
  process_file self idx total file_path w = (Ok tt, w') ->
  exists rel summary line w2,
    relative_to (parse_path file_path) (workspace_path self) = Ok rel
    /\ generate_single_summary self file_path (add_stdout line w) = (Ok summary, w2)
    /\ fs w' !! out_path (docs_path self) rel (u ".md") = Some (File summary).
Proof.
  intros Hrun. unfold process_file in Hrun.
  apply bind_inv_Ok in Hrun as (rel & w0 & H1 & Hrun).
  apply lift_inv_Ok in H1 as [Hrel ->].
  apply bind_inv_Ok in Hrun as ([] & w1 & H2 & Hrun).
  apply bind_inv_Ok in Hrun as (summary & w2 & H3 & Hsave).
  pose proof (proj1 (relative_to_under _ _ _) Hrel) as (_ & Hroot & _).
  destruct (save_summary_writes _ _ _ _ _ Hsave Hroot) as (m & _ & _ & Hfs).
  unfold print in H2. injection H2 as <-.
  eexists rel, summary, _, w2. repeat split; [done | exact H3 |].
  rewrite Hfs, lookup_insert_ne, lookup_insert_eq; [done|].
  intros H. by apply out_path_ext_inj in H.
Qed.

(** X16: two listed files in the same directory whose names have the same
    stem (they differ in the extension only) are given the same summary
    file: when both go through, what the first one left there is replaced
    by the summary of the second. *)
Theorem X16_same_stem_same_summary_file self i j total f1 f2 rel1 rel2 w w1 w2 :
  relative_to (parse_path f1) (workspace_path self) = Ok rel1 ->
  relative_to (parse_path f2) (workspace_path self) = Ok rel2 ->
  removelast (parts rel1) = removelast (parts rel2) ->
  stem rel1 = stem rel2 ->
  process_file self i total f1 w = (Ok tt, w1) ->
  process_file self j total f2 w1 = (Ok tt, w2) ->
  exists s1 s2 l1 l2 wb wd,
    generate_single_summary self f1 (add_stdout l1 w) = (Ok s1, wb)
    /\ generate_single_summary self f2 (add_stdout l2 w1) = (Ok s2, wd)
    /\ fs w1 !! out_path (docs_path self) rel1 (u ".md") = Some (File s1)
    /\ fs w2 !! out_path (docs_path self) rel1 (u ".md") = Some (File s2).
Proof.
  intros Hr1 Hr2 Hdir Hstem H1 H2.
  destruct (process_file_outputs _ _ _ _ _ _ H1) as (r1 & s1 & l1 & wb & E1 & G1 & F1).
  destruct (process_file_outputs _ _ _ _ _ _ H2) as (r2 & s2 & l2 & wd & E2 & G2 & F2).
  rewrite Hr1 in E1. injection E1 as <-. rewrite Hr2 in E2. injection E2 as <-.
  exists s1, s2, l1, l2, wb, wd. repeat split; [done..|].
  unfold out_path in *. by rewrite Hdir, Hstem.
Qed.

Lemma X16_witness :
  let w := Demo.world (u "/ws/a.py") [(parse_path (u "/ws/a.ts"), File (u "let x"))] in
  let self := __init__ Demo.ws (u "sk-test") in
  exists s2,
    fs (process_file self 2 2 (u "/ws/a.ts")
          (process_file self 1 2 (u "/ws/a.py") w).2).2
      !! parse_path (u "/ws/docs/codebase/a.md") = Some (File s2)
    /\ s2 = u "# summary 1".
Proof.
  intros w self.
  assert (E1 : (process_file self 1 2 (u "/ws/a.py") w).1 = Ok tt)
    by (vm_compute; reflexivity).
  assert (E2 : (process_file self 2 2 (u "/ws/a.ts")
                  (process_file self 1 2 (u "/ws/a.py") w).2).1 = Ok tt)
    by (vm_compute; reflexivity).
  destruct (X16_same_stem_same_summary_file self 1 2 2 (u "/ws/a.py") (u "/ws/a.ts")
              (parse_path (u "a.py")) (parse_path (u "a.ts")) w
              (process_file self 1 2 (u "/ws/a.py") w).2
              (process_file self 2 2 (u "/ws/a.ts")
                 (process_file self 1 2 (u "/ws/a.py") w).2).2)
    as (s1 & s2 & wa & wb & wc & wd & _ & _ & _ & H).
  - by vm_compute.
  - by vm_compute.
  - by vm_compute.
  - by vm_compute.
  - rewrite <- E1. apply surjective_pairing.
  - rewrite <- E2. apply surjective_pairing.
  - exists s2. split; [exact H|].
    assert (Hc : fs (process_file self 2 2 (u "/ws/a.ts")
                       (process_file self 1 2 (u "/ws/a.py") w).2).2
                   !! parse_path (u "/ws/docs/codebase/a.md")
                 = Some (File (u "# summary 1"))) by (vm_compute; reflexivity).
    change (out_path (docs_path self) (parse_path (u "a.py")) (u ".md"))
      with (parse_path (u "/ws/docs/codebase/a.md")) in H.
    congruence.
Defined.

(** ** The metadata file *)

Lemma hex_digit_plain d : d < 16 -> plain_ascii (hex_digit d).
Proof.
  intros Hd. unfold hex_digit, plain_ascii. right.
  destruct (d <? 10) eqn:E; [apply N.ltb_lt in E | apply N.ltb_ge in E]; lia.
Qed.

Lemma hex4_plain n : Forall plain_ascii (hex4 n).
Proof.
  unfold hex4.
  repeat (apply Forall_cons_2; [apply hex_digit_plain, N.mod_lt; lia|]).
  apply List.Forall_nil.
Qed.

Lemma plain_lit (s : str) :
  forallb (fun c => (c =? 10) || ((32 <=? c) && (c <=? 126))) s = true ->
  Forall plain_ascii s.
Proof.
  intros Hs. rewrite forallb_forall in Hs. apply Forall_forall. intros c Hc.
  apply list_elem_of_In, Hs in Hc. apply orb_true_iff in Hc as [Hc|Hc].
  - left. by apply N.eqb_eq.
  - right. apply andb_true_iff in Hc as [H1 H2]. by apply N.leb_le in H1, H2.
Qed.

Lemma json_escape_char_plain c : Forall plain_ascii (json_escape_char c).
Proof.
  unfold json_escape_char.
  destruct (c =? 34); [apply plain_lit; reflexivity|].
  destruct (c =? 92); [apply plain_lit; reflexivity|].
  destruct (c =? 10); [apply plain_lit; reflexivity|].
  destruct (c =? 13); [apply plain_lit; reflexivity|].
  destruct (c =? 9); [apply plain_lit; reflexivity|].
  destruct (c =? 8); [apply plain_lit; reflexivity|].
  destruct (c =? 12); [apply plain_lit; reflexivity|].
  destruct ((32 <=? c) && (c <=? 126)) eqn:E.
  { apply plain_lit. cbn [forallb]. by rewrite E, orb_true_r. }
  destruct (c <? 65536).
  - apply (Forall_app_2 _ [92; 117]); [apply plain_lit; reflexivity | apply hex4_plain].
  - cbv zeta.
    apply (Forall_app_2 _ [92; 117]); [apply plain_lit; reflexivity|].
    apply Forall_app_2; [apply hex4_plain|].
    apply (Forall_app_2 _ [92; 117]); [apply plain_lit; reflexivity | apply hex4_plain].
Qed.

Lemma json_string_plain s : Forall plain_ascii (json_string s).
Proof.
  unfold json_string, dq.
  apply Forall_app_2; [apply Forall_singleton; right; lia|].
  apply Forall_app_2; [|apply Forall_singleton; right; lia].
  induction s as [|c s IH]; simpl; [apply List.Forall_nil|].
  apply Forall_app_2; [apply json_escape_char_plain | exact IH].
Qed.

Lemma join_plain c l :
  Forall plain_ascii c -> Forall (Forall plain_ascii) l -> Forall plain_ascii (join c l).
Proof.
  intros Hc. induction 1 as [|x l Hx Hl IH]; simpl; [apply List.Forall_nil|].
  destruct l as [|y l]; [done|].
  apply Forall_app_2; [done|]. apply Forall_app_2; [done | exact IH].
Qed.

Lemma json_dump_plain d : Forall plain_ascii (json_dump d).
Proof.
  unfold json_dump. destruct d as [|kv d]; [apply plain_lit; reflexivity|].
  apply Forall_app_2; [apply plain_lit; reflexivity|].
  apply Forall_app_2; [apply plain_lit; reflexivity|].
  apply Forall_app_2; [|apply Forall_app_2; apply plain_lit; reflexivity].
  apply join_plain; [apply plain_lit; reflexivity|].
  apply Forall_fmap, Forall_forall. intros [k v] _. unfold json_item.
  apply Forall_app_2; [apply plain_lit; reflexivity|].
  apply Forall_app_2; [apply json_string_plain|].
  apply Forall_app_2; [apply plain_lit; reflexivity | apply json_string_plain].
Qed.

(** X19: the metadata file that [save_summary] writes is plain ASCII
    (printable characters and line feeds), whatever characters the path of
    the file and the time stamp have: [json.dump] escapes the rest. *)
Theorem X19_metadata_is_ascii self rel_path summary w w' :
  save_summary self rel_path summary w = (Ok tt, w') ->
  root rel_path = [] ->
  exists metadata,
    fs w' !! out_path (docs_path self) rel_path (u ".json") = Some (File metadata)
    /\ Forall plain_ascii metadata.
Proof.
  intros Hsave Hroot.
  destruct (save_summary_writes _ _ _ _ _ Hsave Hroot) as (m & _ & _ & Hfs).
  eexists. rewrite Hfs, lookup_insert_eq. split; [reflexivity|].
  apply json_dump_plain.
Qed.

Lemma X19_witness :
  let w := Demo.world (u "/ws/a.py") [] in
  let self := __init__ Demo.ws (u "sk-test") in
  let rel := mkPath [] [[233; 46; 112; 121]] in
  exists metadata,
    fs (save_summary self rel (u "# summary") w).2
      !! out_path (docs_path self) rel (u ".json") = Some (File metadata)
    /\ Forall plain_ascii metadata.
Proof.
  intros w self rel.
  assert (E : (save_summary self rel (u "# summary") w).1 = Ok tt)
    by (vm_compute; reflexivity).
  apply (X19_metadata_is_ascii self rel (u "# summary") w).
  - rewrite <- E. apply surjective_pairing.
  - reflexivity.
Defined.
